(** * Tailscale dynamic inventory plugin: model and properties

    A shallow embedding of [plugins/inventory/tailscale.py]:
    - the token handling and device listing of [TailscaleOAuth2API]
      ([load_token], [get_token], [get_devices]);
    - the grouping loop of [InventoryModule.parse].

    Python exceptions are values of [PyExc]; a method is a function from a
    state to an outcome and a new state, so that what a method has already
    written to a shared object stays written when it raises. *)

From Stdlib Require Import ZArith String Ascii List.
From Stdlib Require Import DecimalString DecimalPos DecimalZ.
From stdpp Require Import base gmap strings list fin_maps.

Set Warnings "-clear-no-such-hyp".

Local Open Scope string_scope.

(** ** Exceptions and the method monad *)

Inductive PyExc : Type :=
| IndexError (msg : string)
| KeyError (key : string)
| TypeError (msg : string)
| JSONDecodeError (msg : string)
| Exception (msg : string)
| ExternalError (msg : string).

Inductive Result (A : Type) : Type :=
| Ok (a : A)
| Raise (e : PyExc).
Arguments Ok {A} a.
Arguments Raise {A} e.

Definition M (St A : Type) : Type := St -> Result A * St.

Definition ret {St A} (a : A) : M St A := fun s => (Ok a, s).

Definition raise {St A} (e : PyExc) : M St A := fun s => (Raise e, s).

Definition bind {St A B} (m : M St A) (k : A -> M St B) : M St B :=
  fun s =>
    match m s with
    | (Ok a, s') => k a s'
    | (Raise e, s') => (Raise e, s')
    end.

Definition get {St} : M St St := fun s => (Ok s, s).

Definition modify {St} (f : St -> St) : M St unit := fun s => (Ok tt, f s).

Definition lift_result {St A} (r : Result A) : M St A := fun s => (r, s).

Declare Scope py_scope.
Delimit Scope py_scope with py.
Notation "x <- m ;; k" := (bind m (fun x => k))
  (at level 100, m at next level, right associativity) : py_scope.
Notation "m ;;; k" := (bind m (fun _ => k))
  (at level 100, right associativity) : py_scope.
Local Open Scope py_scope.

(** [for x in l: body x] *)
Fixpoint for_each {St A} (body : A -> M St unit) (l : list A) : M St unit :=
  match l with
  | [] => ret tt
  | x :: l' => body x ;;; for_each body l'
  end.

(** ** Python string and list primitives used by the plugin *)

(** [s[n:]] on a string. *)
Fixpoint slice_from (n : nat) (s : string) : string :=
  match n, s with
  | O, _ => s
  | S _, EmptyString => EmptyString
  | S n', String _ s' => slice_from n' s'
  end.

(** [l[0]] on a list. *)
Definition index0 {St A} (l : list A) : M St A :=
  match l with
  | a :: _ => ret a
  | [] => raise (IndexError "list index out of range")
  end.

(** [not l] on a list: an empty list is false. *)
Definition py_not {A} (l : list A) : bool :=
  match l with
  | [] => true
  | _ :: _ => false
  end.

(** [str(n)] on an int. *)
Definition str_int (n : Z) : string := NilZero.string_of_int (Z.to_int n).

(** ** Devices

    A device is one element of the ["devices"] array of the listing
    response: [{"hostname": str, "addresses": [str, ...], "tags": [str, ...]}].
    The ["tags"] key may be missing, which is why the plugin reads it with
    [device.get("tags", [])]. *)

Module Device.
Record t : Type := mk {
  hostname : string;
  addresses : list string;
  tags : option (list string)
}.
End Device.

(** The decoded body of the listing response, [{"devices": [...]}]. *)
Module DeviceCollection.
Record t : Type := mk {
  devices : list Device.t
}.
End DeviceCollection.

(** ** The inventory of the host framework *)

(** Modelled from the spec: the inventory object of the host framework
    ([self.inventory]) is not part of the plugin. It is the InventoryResult
    of the data model, a mapping from host name to host variables and a
    mapping from group name to its set of member host names, reached only
    through [add_host], [set_variable], [add_group], [add_child] (all
    idempotent) and [get_groups_dict]. *)
Record Inventory : Type := mkInventory {
  hosts : gmap string (gmap string string);
  groups : gmap string (gset string)
}.

Definition empty_inventory : Inventory := mkInventory ∅ ∅.

Definition add_host (hostname : string) (inv : Inventory) : Inventory :=
  match hosts inv !! hostname with
  | Some _ => inv
  | None => mkInventory (<[hostname := ∅]> (hosts inv)) (groups inv)
  end.

Definition set_variable (entity varname value : string) (inv : Inventory)
  : Inventory :=
  mkInventory (alter (insert varname value) entity (hosts inv)) (groups inv).

Definition add_group (group : string) (inv : Inventory) : Inventory :=
  match groups inv !! group with
  | Some _ => inv
  | None => mkInventory (hosts inv) (<[group := ∅]> (groups inv))
  end.

Definition add_child (group child : string) (inv : Inventory) : Inventory :=
  mkInventory (hosts inv) (alter (union {[child]}) group (groups inv)).

Definition get_groups_dict (inv : Inventory) : gmap string (gset string) :=
  groups inv.

(** ** InventoryModule.parse: the grouping loop *)

(** [f"tag_{tag[4:]}"] *)
Definition group_name (tag : string) : string := "tag_" +:+ slice_from 4 tag.

(** [not tags or any(f"tag:{tag}" in device_tags for tag in tags)] *)
Definition included (tags : list string) (device : Device.t) : bool :=
  let device_tags := default [] (Device.tags device) in
  py_not tags
  || existsb (fun tag => bool_decide (("tag:" +:+ tag) ∈ device_tags)) tags.

(** The body of [for tag in device_tags]. *)
Definition parse_tag (hostname tag : string) : M Inventory unit :=
  groups <- (inv <- get ;; ret (get_groups_dict inv)) ;;
  let group_name := group_name tag in
  (match groups !! group_name with
   | None => modify (add_group group_name)
   | Some _ => ret tt
   end) ;;;
  modify (add_child group_name hostname).

(** The body of [for device in devices["devices"]]. *)
Definition parse_device (tags : list string) (device : Device.t)
  : M Inventory unit :=
  let device_tags := default [] (Device.tags device) in
  if included tags device then
    let hostname := Device.hostname device in
    ip_address <- index0 (Device.addresses device) ;;
    modify (add_host hostname) ;;;
    modify (set_variable hostname "ansible_host" ip_address) ;;;
    for_each (parse_tag hostname) device_tags
  else ret tt.

(** Lines 150 to 165: the loop over the fetched devices. *)
Definition parse_devices (tags : list string) (devices : DeviceCollection.t)
  : M Inventory unit :=
  for_each (parse_device tags) (DeviceCollection.devices devices).

(** The InventoryResult built from an empty inventory. *)
Definition build (devices : DeviceCollection.t) (tagFilter : list string)
  : Result Inventory :=
  match parse_devices tagFilter devices empty_inventory with
  | (Ok _, inv) => Ok inv
  | (Raise e, _) => Raise e
  end.


(** ** TailscaleOAuth2API *)

(** A value of the token dictionary. *)
Inductive PyVal : Type :=
| VStr (s : string)
| VInt (n : Z).

(** [str(v)], what an f-string puts in place of [{v}]. *)
Definition py_str (v : PyVal) : string :=
  match v with
  | VStr s => s
  | VInt n => str_int n
  end.

(** The token, a dictionary with at least ["access_token"]. *)
Abbreviation Token := (gmap string PyVal).

(** What a file holds, as [json.load] sees it: the serialization of a
    token, or text that [json.load] rejects with a message. *)
Inductive FileContent : Type :=
| TokenJson (token : Token)
| Malformed (text msg : string).

(** [json.load(f)] *)
Definition json_load {St} (f : FileContent) : M St Token :=
  match f with
  | TokenJson token => ret token
  | Malformed _ msg => raise (JSONDecodeError msg)
  end.

(** The response object of the HTTP client: [status_code], [text] and the
    outcome of [json()]. *)
Module Response.
Record t : Type := mk {
  status_code : Z;
  text : string;
  json : Result DeviceCollection.t
}.
End Response.

(** A call that leaves the process. *)
Inductive Event : Type :=
| FetchToken (client_id client_secret token_url : string)
| HttpGet (url : string) (headers : list (string * string)).

(** What surrounds the process: the files of the working directory, the
    token endpoint, the device-listing endpoint, and the calls made so far. *)
Record World : Type := mkWorld {
  files : gmap string FileContent;
  token_endpoint : string -> string -> string -> Result Token;
  api_endpoint : string -> list (string * string) -> Result Response.t;
  trace : list Event
}.

Definition log (ev : Event) (w : World) : World :=
  mkWorld (files w) (token_endpoint w) (api_endpoint w) (trace w ++ [ev]).

Definition BASE_URL : string := "https://api.tailscale.com/api/v2".
Definition TOKEN_URL : string := "https://api.tailscale.com/api/v2/oauth/token".

Module TailscaleOAuth2API.

(** The attributes of the object. *)
Record t : Type := mk {
  client_id : string;
  client_secret : string;
  token_url : string;
  token_file : string;
  token : option Token
}.

(** A method runs on the object and the world. *)
Record St : Type := mkSt {
  self : t;
  world : World
}.

Definition set_token (tok : Token) (s : St) : St :=
  mkSt (mk (client_id (self s)) (client_secret (self s)) (token_url (self s))
           (token_file (self s)) (Some tok))
       (world s).

Definition __init__ (client_id client_secret token_url : string) : t :=
  mk client_id client_secret token_url ".tailscale_token.json" None.

(** [OAuth2(client_id, client_secret).fetch_token(token_url)] *)
Definition fetch_token (client_id client_secret token_url : string)
  : M St Token :=
  modify (fun s => mkSt (self s)
                        (log (FetchToken client_id client_secret token_url)
                             (world s))) ;;;
  s <- get ;;
  lift_result (token_endpoint (world s) client_id client_secret token_url).

Definition get_token : M St unit :=
  s <- get ;;
  tok <- fetch_token (client_id (self s)) (client_secret (self s))
                     (token_url (self s)) ;;
  modify (set_token tok).

Definition load_token : M St unit :=
  s <- get ;;
  match files (world s) !! token_file (self s) with
  | Some f =>
      tok <- json_load f ;;
      modify (set_token tok)
  | None => get_token
  end.

Definition connect : M St unit := load_token.

Definition setup (client_id client_secret token_url : string) : M World t :=
  fun w =>
    let self := __init__ client_id client_secret token_url in
    match connect (mkSt self w) with
    | (Ok _, s) => (Ok (TailscaleOAuth2API.self s), world s)
    | (Raise e, s) => (Raise e, world s)
    end.

(** [self.token['access_token']] *)
Definition access_token : M St PyVal :=
  s <- get ;;
  match token (self s) with
  | None => raise (TypeError "'NoneType' object is not subscriptable")
  | Some tok =>
      match tok !! "access_token" with
      | Some v => ret v
      | None => raise (KeyError "access_token")
      end
  end.

(** [self.client.get(url, headers=headers)] *)
Definition client_get (url : string) (headers : list (string * string))
  : M St Response.t :=
  modify (fun s => mkSt (self s) (log (HttpGet url headers) (world s))) ;;;
  s <- get ;;
  lift_result (api_endpoint (world s) url headers).

Definition get_devices (tailnet_name : string) : M St DeviceCollection.t :=
  tok <- access_token ;;
  let headers := [("Authorization", "Bearer " +:+ py_str tok)] in
  let url := BASE_URL +:+ "/tailnet/" +:+ tailnet_name +:+ "/devices" in
  response <- client_get url headers ;;
  if (Response.status_code response =? 200)%Z then
    lift_result (Response.json response)
  else
    raise (Exception ("Error: " +:+ str_int (Response.status_code response)
                      +:+ ": " +:+ Response.text response)).

End TailscaleOAuth2API.

(** ** InventoryModule.parse *)

(** The options of the inventory source, as [get_option] returns them. *)
Module Options.
Record t : Type := mk {
  client_id : string;
  client_secret : string;
  tailnet : string;
  tags : list string
}.
End Options.

(** The plugin runs on the world and on the inventory it was handed. *)
Record Process : Type := mkProcess {
  world : World;
  inventory : Inventory
}.

Definition in_world {A} (m : M World A) : M Process A :=
  fun p =>
    match m (world p) with
    | (r, w) => (r, mkProcess w (inventory p))
    end.

Definition in_inventory {A} (m : M Inventory A) : M Process A :=
  fun p =>
    match m (inventory p) with
    | (r, inv) => (r, mkProcess (world p) inv)
    end.

(** [aparse]: set the client up and fetch the devices. *)
Definition aparse (client_id client_secret tailnet : string)
  : M World DeviceCollection.t :=
  tailscale <- TailscaleOAuth2API.setup client_id client_secret TOKEN_URL ;;
  fun w =>
    match TailscaleOAuth2API.get_devices tailnet
            (TailscaleOAuth2API.mkSt tailscale w) with
    | (r, s) => (r, TailscaleOAuth2API.world s)
    end.

Definition parse (options : Options.t) : M Process unit :=
  let client_id := Options.client_id options in
  let client_secret := Options.client_secret options in
  let tailnet := Options.tailnet options in
  let tags := Options.tags options in
  devices <- in_world (aparse client_id client_secret tailnet) ;;
  in_inventory (parse_devices tags devices).

(** ** The effect of the loop, in closed form *)

(** One iteration of [for tag in device_tags]. *)
Definition apply_tag (hostname tag : string) (inv : Inventory) : Inventory :=
  add_child (group_name tag) hostname (add_group (group_name tag) inv).

(** One iteration of the device loop that ran to its end. *)
Definition apply_device (device : Device.t) (inv : Inventory) : Inventory :=
  match Device.addresses device with
  | [] => inv
  | ip_address :: _ =>
      let hostname := Device.hostname device in
      fold_left (fun inv tag => apply_tag hostname tag inv)
        (default [] (Device.tags device))
        (set_variable hostname "ansible_host" ip_address (add_host hostname inv))
  end.

Definition apply_devices (l : list Device.t) (inv : Inventory) : Inventory :=
  fold_left (fun inv device => apply_device device inv) l inv.

(** The devices whose iteration runs to its end: the included ones, up to
    the first included device without an address. *)
Fixpoint processed (tags : list string) (ds : list Device.t) : list Device.t :=
  match ds with
  | [] => []
  | d :: ds' =>
      if included tags d then
        match Device.addresses d with
        | [] => []
        | _ :: _ => d :: processed tags ds'
        end
      else processed tags ds'
  end.

(** How the loop ends. *)
Fixpoint outcome (tags : list string) (ds : list Device.t) : Result unit :=
  match ds with
  | [] => Ok tt
  | d :: ds' =>
      if included tags d then
        match Device.addresses d with
        | [] => Raise (IndexError "list index out of range")
        | _ :: _ => outcome tags ds'
        end
      else outcome tags ds'
  end.

(** The address written last for a host name. *)
Fixpoint last_address (l : list Device.t) (h : string) : option string :=
  match l with
  | [] => None
  | d :: l' =>
      match last_address l' h with
      | Some a => Some a
      | None =>
          if decide (h = Device.hostname d) then head (Device.addresses d)
          else None
      end
  end.

(** Whether one of a device's tags yields the group [g]. *)
Definition tagged_for (g : string) (d : Device.t) : bool :=
  existsb (fun tag => bool_decide (group_name tag = g))
          (default [] (Device.tags d)).

(** The host names a list of devices adds to the group [g]. *)
Fixpoint new_members (l : list Device.t) (g : string) : gset string :=
  match l with
  | [] => ∅
  | d :: l' =>
      (if tagged_for g d then {[Device.hostname d]} else ∅) ∪ new_members l' g
  end.

(** What the loop leaves in the variables of a host. *)
Definition write_host (address : option string)
  (old : option (gmap string string)) : option (gmap string string) :=
  match address with
  | Some a => Some (<["ansible_host" := a]> (default ∅ old))
  | None => old
  end.

(** What the loop leaves in a group. *)
Definition join_group (touched : bool) (members : gset string)
  (old : option (gset string)) : option (gset string) :=
  if touched then Some (members ∪ default ∅ old) else old.

(** The members of a group, none when there is no such group. *)
Definition members (inv : Inventory) (g : string) : gset string :=
  default ∅ (groups inv !! g).

(** The filtering rule in the words of the specification: the filter is
    empty, or one of its entries, prefixed with ["tag:"], is among the
    tags of the device. *)
Definition matches_filter (tagFilter : list string) (d : Device.t) : Prop :=
  tagFilter = [] ∨
  ∃ tag, tag ∈ tagFilter ∧ ("tag:" +:+ tag) ∈ default [] (Device.tags d).

(** The scenario of the specification: two devices, one tagged web. *)
Definition device_a : Device.t :=
  Device.mk "a" ["10.0.0.1"] (Some ["tag:web"]).
Definition device_b : Device.t :=
  Device.mk "b" ["10.0.0.2"] (Some ["tag:db"]).
Definition tailnet_ab : DeviceCollection.t :=
  DeviceCollection.mk [device_a; device_b].
Definition inventory_a : Inventory :=
  mkInventory {[ "a" := {[ "ansible_host" := "10.0.0.1" ]} ]}
              {[ "tag_web" := {[ "a" ]} ]}.

(** The message an exception carries. *)
Definition exc_message (e : PyExc) : string :=
  match e with
  | IndexError msg | TypeError msg | JSONDecodeError msg
  | Exception msg | ExternalError msg => msg
  | KeyError key => key
  end.

(** Whether an exception is the fault of indexing a list. *)
Definition is_IndexError (e : PyExc) : bool :=
  match e with
  | IndexError _ => true
  | _ => false
  end.

(** The failure the specification asks for when a device has no address:
    not an indexing fault, and a message that contains the host name of the
    device. *)
Definition precondition_violation_naming (d : Device.t) (e : PyExc) : Prop :=
  is_IndexError e = false
  ∧ index 0 (Device.hostname d) (exc_message e) ≠ None.

(** A device without an address. *)
Definition device_gateway : Device.t := Device.mk "gateway" [] None.

(** The invariant of the InventoryResult: the members of every group are
    hosts of the inventory. *)
Definition groups_within_hosts (inv : Inventory) : Prop :=
  ∀ g ms h, groups inv !! g = Some ms → h ∈ ms → h ∈ dom (hosts inv).

(** A device with two tags, and a device whose tag lacks the prefix. *)
Definition device_web_prod : Device.t :=
  Device.mk "w" ["100.64.0.7"] (Some ["tag:web"; "tag:prod"]).
Definition device_bare_tag : Device.t :=
  Device.mk "c" ["100.64.0.9"] (Some ["web"]).

(** The request of [get_devices]. *)
Definition devices_url (tailnet_name : string) : string :=
  BASE_URL +:+ "/tailnet/" +:+ tailnet_name +:+ "/devices".

Definition bearer (access_token : PyVal) : list (string * string) :=
  [("Authorization", "Bearer " +:+ py_str access_token)].

(** The message of the exception [get_devices] raises. *)
Definition api_error_message (status_code : Z) (text : string) : string :=
  "Error: " +:+ str_int status_code +:+ ": " +:+ text.

(** Worlds for the scenarios: a token endpoint that grants a token, a
    device-listing endpoint that answers 403, and a token file that is
    absent, malformed, or holds a token. *)
Definition granted_token : Token :=
  {[ "access_token" := VStr "tskey-abc"; "token_type" := VStr "Bearer";
     "expires_in" := VInt 3600 ]}.

Definition forbidden : Response.t :=
  Response.mk 403 "forbidden" (Raise (JSONDecodeError "Expecting value")).

Definition world_with (files : gmap string FileContent) : World :=
  mkWorld files (fun _ _ _ => Ok granted_token) (fun _ _ => Ok forbidden) [].

Definition world_no_cache : World := world_with ∅.

Definition world_corrupt_cache : World :=
  world_with {[ ".tailscale_token.json" :=
                  Malformed "{oops" "Expecting property name" ]}.

Definition options_example : Options.t :=
  Options.mk "client" "secret" "example.com" [].

(** A string without a colon. *)
Fixpoint colon_free (s : string) : Prop :=
  match s with
  | EmptyString => True
  | String c s' => c ≠ ":"%char ∧ colon_free s'
  end.

(** ** InventoryModule.TemplatedOptions *)

(** The value of an option: [None], a string, or a list of strings (the
    types the options of the inventory source are declared with). *)
Inductive OptionValue : Type :=
| ONone
| OStr (s : string)
| OList (l : list string).

(** The truth value of an option value: [None], the empty string and the
    empty list are false. *)
Definition truthy (v : OptionValue) : bool :=
  match v with
  | ONone => false
  | OStr s => negb (String.eqb s "")
  | OList l => negb (py_not l)
  end.

(** The templating engine of the host framework, by the two methods the
    plugin calls: [is_template(value)] and
    [template(variable=value, disable_lookups=False)], which may raise. *)
Record Templar : Type := mkTemplar {
  is_template : OptionValue -> bool;
  template : OptionValue -> Result OptionValue
}.

Module TemplatedOptions.

Definition TEMPLATABLE_OPTIONS : list string :=
  ["client_secret"; "client_id"; "tailnet"; "tags"].

(** The attributes of the object; [templar] is [None] when the plugin has
    no templating engine. *)
Record t : Type := mk {
  original_options : gmap string OptionValue;
  templar : option Templar
}.

Definition __init__ (templar : option Templar)
  (options : gmap string OptionValue) : t :=
  mk options templar.

(** [self.original_options.__getitem__(key)] *)
Definition __getitem__ (key : string) : M t OptionValue :=
  self <- get ;;
  match original_options self !! key with
  | Some value => ret value
  | None => raise (KeyError key)
  end.

(** [self.original_options.__setitem__(key, value)] *)
Definition __setitem__ (key : string) (value : OptionValue) : M t unit :=
  modify (fun self => mk (<[key := value]> (original_options self))
                         (templar self)).

(** [dict.get(key)] and [dict.get(key, default)] *)
Definition dict_get (d : gmap string OptionValue) (key : string)
  (default : option OptionValue) : OptionValue :=
  match d !! key with
  | Some value => value
  | None =>
      match default with
      | Some value => value
      | None => ONone
      end
  end.

(** [get(key)] and [get(key, default)] *)
Definition get (key : string) (default : option OptionValue)
  : M t OptionValue :=
  self <- get ;;
  let value := dict_get (original_options self) key default in
  match templar self with
  | None => ret value
  | Some engine =>
      if negb (truthy value)
         || negb (bool_decide (key ∈ TEMPLATABLE_OPTIONS))
         || negb (is_template engine value)
      then ret value
      else lift_result (template engine value)
  end.

End TemplatedOptions.


(** [InventoryModule.get_option]: a wrapper around the one option, asked
    for that option; [super_get_option] is [super().get_option(option)]. *)
Definition get_option (templar : option Templar)
  (super_get_option : OptionValue) (option : string) : Result OptionValue :=
  (TemplatedOptions.get option None
     (TemplatedOptions.__init__ templar {[ option := super_get_option ]})).1.

(** ** The nodes command *)

(** [ctx.obj], as [main] fills it. *)
Module TailnetConfig.
Record t : Type := mk {
  client_id : string;
  client_secret : string;
  tailnet : string
}.
End TailnetConfig.

Definition main (client_id client_secret tailnet : string) : TailnetConfig.t :=
  TailnetConfig.mk client_id client_secret tailnet.

(** A command runs on the world and on the terminal it prints to. *)
Record Terminal : Type := mkTerminal {
  outside : World;
  stdout : list string
}.

Definition in_outside {A} (m : M World A) : M Terminal A :=
  fun t =>
    match m (outside t) with
    | (r, w) => (r, mkTerminal w (stdout t))
    end.

(** [print(line)] *)
Definition print (line : string) : M Terminal unit :=
  modify (fun t => mkTerminal (outside t) (stdout t ++ [line])).

(** [f"Device: {device['hostname']}, IP: {device['addresses'][0]}"] *)
Definition device_line (hostname ip_address : string) : string :=
  "Device: " +:+ hostname +:+ ", IP: " +:+ ip_address.

(** The body of the loop of [nodes]. *)
Definition print_device (device : Device.t) : M Terminal unit :=
  let hostname := Device.hostname device in
  ip_address <- index0 (Device.addresses device) ;;
  print (device_line hostname ip_address).

(** [inner_main] of [nodes]. *)
Definition nodes (obj : TailnetConfig.t) : M Terminal unit :=
  devices <- in_outside
    (tailscale_api <- TailscaleOAuth2API.setup (TailnetConfig.client_id obj)
                        (TailnetConfig.client_secret obj) TOKEN_URL ;;
     fun w =>
       match TailscaleOAuth2API.get_devices (TailnetConfig.tailnet obj)
               (TailscaleOAuth2API.mkSt tailscale_api w) with
       | (r, s) => (r, TailscaleOAuth2API.world s)
       end) ;;
  for_each print_device (DeviceCollection.devices devices).

(** The lines the loop of [nodes] prints: one for each device, up to the
    first device without an address. *)
Fixpoint printed (ds : list Device.t) : list string :=
  match ds with
  | [] => []
  | d :: ds' =>
      match Device.addresses d with
      | [] => []
      | ip_address :: _ =>
          device_line (Device.hostname d) ip_address :: printed ds'
      end
  end.

(** What a printed line says of a device. *)
Definition line_of (d : Device.t) (line : string) : Prop :=
  ∃ a rest, Device.addresses d = a :: rest
            ∧ line = device_line (Device.hostname d) a.

(** More worlds for the scenarios: a device-listing endpoint that answers
    200 with the two devices, with and without a token file; a token
    endpoint that refuses; a token file whose token has no access token; a
    listing endpoint that cannot be reached. *)
Definition listing_ab : Response.t :=
  Response.mk 200 "{...}" (Ok tailnet_ab).

Definition world_listing (files : gmap string FileContent) : World :=
  mkWorld files (fun _ _ _ => Ok granted_token) (fun _ _ => Ok listing_ab) [].

Definition world_cached : World :=
  world_listing {[ ".tailscale_token.json" := TokenJson granted_token ]}.

Definition world_refusing : World :=
  mkWorld ∅ (fun _ _ _ => Raise (ExternalError "invalid_client"))
    (fun _ _ => Ok listing_ab) [].

Definition world_keyless : World :=
  world_listing
    {[ ".tailscale_token.json" := TokenJson {[ "token_type" := VStr "Bearer" ]} ]}.

Definition world_offline : World :=
  mkWorld {[ ".tailscale_token.json" := TokenJson granted_token ]}
    (fun _ _ _ => Ok granted_token)
    (fun _ _ => Raise (ExternalError "connection refused")) [].

(** A templating engine for the scenarios: a string is a template when it
    opens with a brace, and templating such a string yields "resolved". *)
Definition braces : Templar :=
  mkTemplar
    (fun v => match v with
              | OStr (String "{" _) => true
              | _ => false
              end)
    (fun v => Ok (OStr "resolved")).

(** * Properties *)

(** ** The loop runs as its closed form *)

Lemma parse_tag_run h t inv : parse_tag h t inv = (Ok tt, apply_tag h t inv).
Proof.
  unfold parse_tag, apply_tag, bind, get, ret, modify, get_groups_dict; simpl.
  destruct (groups inv !! group_name t) eqn:E; simpl; [|done].
  unfold add_group. by rewrite E.
Qed.

Lemma for_each_parse_tag h ts inv :
  for_each (parse_tag h) ts inv
  = (Ok tt, fold_left (fun inv tag => apply_tag h tag inv) ts inv).
Proof.
  revert inv. induction ts as [|t ts IH]; intros inv; simpl; [done|].
  unfold bind. rewrite parse_tag_run. apply IH.
Qed.

Lemma parse_device_run tags d inv :
  parse_device tags d inv
  = if included tags d then
      match Device.addresses d with
      | [] => (Raise (IndexError "list index out of range"), inv)
      | _ :: _ => (Ok tt, apply_device d inv)
      end
    else (Ok tt, inv).
Proof.
  unfold parse_device, apply_device.
  destruct (included tags d); [|done].
  destruct (Device.addresses d) as [|a rest]; [done|].
  unfold bind, index0, ret, modify; simpl.
  apply for_each_parse_tag.
Qed.

Lemma for_each_parse_device tags ds inv :
  for_each (parse_device tags) ds inv
  = (outcome tags ds, apply_devices (processed tags ds) inv).
Proof.
  revert inv. induction ds as [|d ds IH]; intros inv; simpl; [done|].
  unfold bind. rewrite parse_device_run.
  destruct (included tags d); [|apply IH].
  destruct (Device.addresses d) as [|a rest]; [done|].
  apply IH.
Qed.

Lemma parse_devices_run tags devices inv :
  parse_devices tags devices inv
  = (outcome tags (DeviceCollection.devices devices),
     apply_devices (processed tags (DeviceCollection.devices devices)) inv).
Proof. apply for_each_parse_device. Qed.

Lemma build_run devices tags :
  build devices tags
  = match outcome tags (DeviceCollection.devices devices) with
    | Ok _ =>
        Ok (apply_devices (processed tags (DeviceCollection.devices devices))
              empty_inventory)
    | Raise e => Raise e
    end.
Proof. unfold build. by rewrite parse_devices_run. Qed.

(** ** Lookups in the inventory after the loop *)

Lemma hosts_apply_tags h ts inv :
  hosts (fold_left (fun inv tag => apply_tag h tag inv) ts inv) = hosts inv.
Proof.
  revert inv. induction ts as [|t ts IH]; intros inv; simpl; [done|].
  rewrite IH. unfold apply_tag, add_child, add_group; simpl.
  by destruct (groups inv !! group_name t).
Qed.

Lemma groups_apply_tag h t inv g :
  groups (apply_tag h t inv) !! g
  = join_group (bool_decide (group_name t = g)) {[h]} (groups inv !! g).
Proof.
  unfold apply_tag, add_child, add_group, join_group; simpl.
  case_bool_decide as Hg.
  - subst g. rewrite lookup_alter_eq.
    destruct (groups inv !! group_name t) as [old|] eqn:E; simpl.
    + by rewrite E.
    + rewrite lookup_insert_eq. done.
  - rewrite lookup_alter_ne by done.
    destruct (groups inv !! group_name t); simpl; [done|].
    by rewrite lookup_insert_ne.
Qed.

Lemma groups_apply_tags h ts inv g :
  groups (fold_left (fun inv tag => apply_tag h tag inv) ts inv) !! g
  = join_group (existsb (fun tag => bool_decide (group_name tag = g)) ts)
      {[h]} (groups inv !! g).
Proof.
  revert inv. induction ts as [|t ts IH]; intros inv; simpl; [done|].
  rewrite IH, groups_apply_tag. unfold join_group.
  destruct (bool_decide (group_name t = g)); simpl; [|done].
  destruct (existsb _ ts); [|done].
  f_equal. set_solver.
Qed.

Lemma hosts_apply_device d inv h :
  hosts (apply_device d inv) !! h
  = write_host (if decide (h = Device.hostname d)
                then head (Device.addresses d) else None)
      (hosts inv !! h).
Proof.
  unfold apply_device.
  destruct (Device.addresses d) as [|a rest]; simpl.
  { by case_decide. }
  rewrite hosts_apply_tags. unfold set_variable, add_host; simpl.
  case_decide as Hh.
  - subst h. rewrite lookup_alter_eq.
    destruct (hosts inv !! Device.hostname d) as [vars|] eqn:E; simpl.
    + by rewrite E.
    + by rewrite lookup_insert_eq.
  - rewrite lookup_alter_ne by done.
    destruct (hosts inv !! Device.hostname d); simpl; [done|].
    by rewrite lookup_insert_ne.
Qed.

Lemma groups_apply_device d inv g :
  Device.addresses d ≠ [] →
  groups (apply_device d inv) !! g
  = join_group (tagged_for g d) {[Device.hostname d]} (groups inv !! g).
Proof.
  intros Ha. unfold apply_device, tagged_for.
  destruct (Device.addresses d) as [|a rest]; [done|].
  rewrite groups_apply_tags. unfold set_variable, add_host; simpl.
  by destruct (hosts inv !! Device.hostname d).
Qed.

Lemma write_host_twice a b old :
  write_host (Some a) (write_host b old) = write_host (Some a) old.
Proof.
  destruct b as [b|]; simpl; [|done].
  by rewrite insert_insert_eq.
Qed.

Lemma hosts_apply_devices l inv h :
  hosts (apply_devices l inv) !! h
  = write_host (last_address l h) (hosts inv !! h).
Proof.
  revert inv. induction l as [|d l IH]; intros inv; simpl; [done|].
  unfold apply_devices in IH. rewrite IH, hosts_apply_device.
  destruct (last_address l h) as [a|]; [|done].
  apply write_host_twice.
Qed.

Lemma existsb_tagged_new_members l g :
  existsb (tagged_for g) l = false → new_members l g = ∅.
Proof.
  induction l as [|d l IH]; simpl; [done|].
  intros [Hd Hl]%orb_false_elim. rewrite Hd, IH by done. set_solver.
Qed.

Lemma groups_apply_devices l inv g :
  Forall (λ d, Device.addresses d ≠ []) l →
  groups (apply_devices l inv) !! g
  = join_group (existsb (tagged_for g) l) (new_members l g) (groups inv !! g).
Proof.
  intros Hl. revert inv.
  induction Hl as [|d l Hd Hl IH]; intros inv; simpl; [done|].
  unfold apply_devices in IH. rewrite IH, groups_apply_device by done.
  unfold join_group.
  destruct (tagged_for g d); simpl.
  - destruct (existsb (tagged_for g) l) eqn:E; f_equal.
    + set_solver.
    + rewrite existsb_tagged_new_members by done. set_solver.
  - destruct (existsb (tagged_for g) l); [|done].
    f_equal. set_solver.
Qed.

Lemma members_apply_devices l inv g :
  Forall (λ d, Device.addresses d ≠ []) l →
  members (apply_devices l inv) g = new_members l g ∪ members inv g.
Proof.
  intros Hl. unfold members. rewrite groups_apply_devices by done.
  unfold join_group.
  destruct (existsb (tagged_for g) l) eqn:E; simpl; [done|].
  rewrite existsb_tagged_new_members by done. set_solver.
Qed.

(** ** The devices the loop processes *)

Lemma processed_addresses tags ds :
  Forall (λ d, Device.addresses d ≠ []) (processed tags ds).
Proof.
  induction ds as [|d ds IH]; simpl; [constructor|].
  destruct (included tags d); [|done].
  destruct (Device.addresses d) eqn:E; [constructor|].
  constructor; [|done]. by rewrite E.
Qed.

Lemma elem_of_processed tags ds d :
  outcome tags ds = Ok tt →
  d ∈ processed tags ds ↔ d ∈ ds ∧ included tags d = true.
Proof.
  induction ds as [|d' ds IH]; simpl.
  { intros _. set_solver. }
  destruct (included tags d') eqn:Hi.
  - destruct (Device.addresses d') eqn:E; [done|].
    intros Hok. rewrite !elem_of_cons, IH by done.
    naive_solver.
  - intros Hok. rewrite elem_of_cons, IH by done.
    naive_solver congruence.
Qed.

Lemma outcome_Ok_addresses tags ds d :
  outcome tags ds = Ok tt → d ∈ ds → included tags d = true →
  Device.addresses d ≠ [].
Proof.
  induction ds as [|d' ds IH]; simpl; [set_solver|].
  intros Hok [->|Hd]%elem_of_cons Hi.
  - rewrite Hi in Hok. by destruct (Device.addresses d').
  - apply IH; [|done..].
    destruct (included tags d'); [|done].
    by destruct (Device.addresses d').
Qed.


Lemma last_address_Some l h a :
  last_address l h = Some a →
  ∃ d, d ∈ l ∧ Device.hostname d = h ∧ head (Device.addresses d) = Some a.
Proof.
  induction l as [|d l IH]; simpl; [done|].
  destruct (last_address l h) as [b|].
  - intros [= ->]. destruct IH as (d' & ? & ? & ?); [done|].
    exists d'. set_solver.
  - case_decide as Hh; [|done]. intros Ha. exists d. set_solver.
Qed.

Lemma last_address_is_Some l h d :
  d ∈ l → Device.hostname d = h → Device.addresses d ≠ [] →
  is_Some (last_address l h).
Proof.
  induction l as [|d' l IH]; simpl; [set_solver|].
  intros [->|Hd]%elem_of_cons Hh Ha.
  - destruct (last_address l h); [done|].
    rewrite decide_True by done.
    destruct (Device.addresses d'); [done|]. by eexists.
  - destruct IH as [a ->]; [done..|]. by eexists.
Qed.

Lemma elem_of_new_members l g h :
  h ∈ new_members l g
  ↔ ∃ d, d ∈ l ∧ Device.hostname d = h ∧ tagged_for g d = true.
Proof.
  induction l as [|d l IH]; simpl.
  { set_solver. }
  rewrite elem_of_union, IH. split.
  - intros [Hd|(d' & ? & ? & ?)].
    + destruct (tagged_for g d) eqn:E; [|set_solver].
      exists d. set_solver.
    + exists d'. set_solver.
  - intros (d' & [->|Hd]%elem_of_cons & Hh & Ht).
    + left. rewrite Ht. set_solver.
    + right. by exists d'.
Qed.

Lemma tagged_for_spec g d :
  tagged_for g d = true
  ↔ ∃ tag, tag ∈ default [] (Device.tags d) ∧ group_name tag = g.
Proof.
  unfold tagged_for. rewrite existsb_exists. split.
  - intros (tag & Hin & Hg). exists tag.
    rewrite list_elem_of_In. by apply bool_decide_eq_true in Hg.
  - intros (tag & Hin & Hg). exists tag.
    rewrite <- list_elem_of_In. by rewrite bool_decide_eq_true.
Qed.

Lemma included_spec tags d : included tags d = true ↔ matches_filter tags d.
Proof.
  unfold included, matches_filter.
  rewrite orb_true_iff, existsb_exists. split.
  - intros [Hn|(tag & Hin & Hm)].
    + left. by destruct tags.
    + right. exists tag. rewrite list_elem_of_In.
      by apply bool_decide_eq_true in Hm.
  - intros [->|(tag & Hin & Hm)]; [by left|].
    right. exists tag. rewrite <- list_elem_of_In.
    by rewrite bool_decide_eq_true.
Qed.

(** ** The result of a build *)

Lemma build_Ok devices tags r :
  build devices tags = Ok r
  ↔ outcome tags (DeviceCollection.devices devices) = Ok tt
    ∧ r = apply_devices (processed tags (DeviceCollection.devices devices))
            empty_inventory.
Proof.
  rewrite build_run.
  destruct (outcome tags (DeviceCollection.devices devices)) as [[]|e].
  - split; [intros [= <-]; done | intros [_ ->]; done].
  - split; [done | intros [? _]; done].
Qed.

Lemma elem_of_dom_hosts_apply_devices l inv h :
  h ∈ dom (hosts (apply_devices l inv))
  ↔ h ∈ dom (hosts inv) ∨ is_Some (last_address l h).
Proof.
  rewrite !elem_of_dom, hosts_apply_devices.
  destruct (last_address l h) as [a|]; simpl.
  - split; [right|]; by eexists.
  - split; [by left|]. intros [?|[? ?]]; done.
Qed.

Lemma build_hosts devices tags r h :
  build devices tags = Ok r →
  h ∈ dom (hosts r)
  ↔ ∃ d, d ∈ DeviceCollection.devices devices
         ∧ Device.hostname d = h ∧ included tags d = true.
Proof.
  intros [Hok ->]%build_Ok.
  rewrite elem_of_dom_hosts_apply_devices. simpl. rewrite dom_empty_L. split.
  - intros [?|[a (d & Hd & Hh & _)%last_address_Some]]; [set_solver|].
    apply elem_of_processed in Hd as [? ?]; [|done]. by exists d.
  - intros (d & Hd & Hh & Hi). right.
    apply (last_address_is_Some _ _ d); [|done|].
    + by apply elem_of_processed.
    + by eapply outcome_Ok_addresses.
Qed.

Lemma build_members devices tags r g h :
  build devices tags = Ok r →
  h ∈ members r g
  ↔ ∃ d, d ∈ DeviceCollection.devices devices
         ∧ Device.hostname d = h ∧ included tags d = true
         ∧ tagged_for g d = true.
Proof.
  intros [Hok ->]%build_Ok.
  rewrite members_apply_devices by apply processed_addresses.
  unfold members at 1; simpl. rewrite lookup_empty; simpl.
  rewrite elem_of_union, elem_of_new_members. split.
  - intros [(d & Hd & Hh & Ht)|?]; [|set_solver].
    apply elem_of_processed in Hd as [? ?]; [|done]. by exists d.
  - intros (d & Hd & Hh & Hi & Ht). left. exists d.
    by rewrite elem_of_processed.
Qed.

(** C1. A build that succeeds holds a host exactly for the host names of the
    devices the filter admits (the filter is empty, or one of its entries
    prefixed with "tag:" is among the device's tags), and a host is a member
    of a group exactly when an admitted device of that name carries a tag
    that yields the group. A device the filter does not admit leaves the
    inventory as it was: no host, no group membership. *)
Theorem tag_filter_decides_inclusion devices tagFilter r
  (Hbuild : build devices tagFilter = Ok r) :
  (∀ d inv, ¬ matches_filter tagFilter d →
            parse_device tagFilter d inv = (Ok tt, inv))
  ∧ (∀ h, h ∈ dom (hosts r)
          ↔ ∃ d, d ∈ DeviceCollection.devices devices
                 ∧ Device.hostname d = h ∧ matches_filter tagFilter d)
  ∧ (∀ g h, h ∈ members r g
            ↔ ∃ d, d ∈ DeviceCollection.devices devices
                   ∧ Device.hostname d = h ∧ matches_filter tagFilter d
                   ∧ ∃ tag, tag ∈ default [] (Device.tags d)
                            ∧ group_name tag = g).
Proof.
  split; [|split].
  - intros d inv Hd. rewrite parse_device_run.
    destruct (included tagFilter d) eqn:Hi; [|done].
    by apply included_spec in Hi.
  - intros h. rewrite build_hosts by done.
    by setoid_rewrite included_spec.
  - intros g h. rewrite build_members by done.
    setoid_rewrite included_spec. by setoid_rewrite tagged_for_spec.
Qed.

Example build_tailnet_ab : build tailnet_ab ["web"] = Ok inventory_a.
Proof. by vm_compute. Qed.

Lemma tag_filter_decides_inclusion_witness :
  build tailnet_ab ["web"] = Ok inventory_a
  ∧ (∀ h, h ∈ dom (hosts inventory_a)
          ↔ ∃ d, d ∈ DeviceCollection.devices tailnet_ab
                 ∧ Device.hostname d = h ∧ matches_filter ["web"] d).
Proof.
  split; [by vm_compute|].
  apply (tag_filter_decides_inclusion tailnet_ab ["web"] inventory_a).
  by vm_compute.
Defined.

(** ** A device without an address *)

Lemma outcome_IndexError tags ds d :
  d ∈ ds → included tags d = true → Device.addresses d = [] →
  outcome tags ds = Raise (IndexError "list index out of range").
Proof.
  induction ds as [|d' ds IH]; simpl; [set_solver|].
  intros [->|Hd]%elem_of_cons Hi Ha.
  - by rewrite Hi, Ha.
  - destruct (included tags d'); [|by apply IH].
    destruct (Device.addresses d'); [done|by apply IH].
Qed.

(** C2, as the code has it. A device the filter admits and that has no
    address makes the build fail with the IndexError of indexing its first
    address, "list index out of range"; the iteration of that device stops
    before it adds a host, and the loop stops with it. *)
Theorem empty_addresses_raise_IndexError devices tagFilter d
  (Hd : d ∈ DeviceCollection.devices devices)
  (Hincluded : included tagFilter d = true)
  (Hempty : Device.addresses d = []) :
  build devices tagFilter = Raise (IndexError "list index out of range")
  ∧ (∀ inv, (parse_devices tagFilter devices inv).1
            = Raise (IndexError "list index out of range"))
  ∧ (∀ inv, parse_device tagFilter d inv
            = (Raise (IndexError "list index out of range"), inv)).
Proof.
  pose proof (outcome_IndexError _ _ _ Hd Hincluded Hempty) as Hout.
  split; [|split].
  - by rewrite build_run, Hout.
  - intros inv. by rewrite parse_devices_run, Hout.
  - intros inv. by rewrite parse_device_run, Hincluded, Hempty.
Qed.

Lemma empty_addresses_raise_IndexError_witness :
  build (DeviceCollection.mk [device_a; device_gateway]) []
  = Raise (IndexError "list index out of range").
Proof.
  apply (empty_addresses_raise_IndexError
           (DeviceCollection.mk [device_a; device_gateway]) [] device_gateway).
  - simpl. apply elem_of_cons. right. apply elem_of_cons. by left.
  - reflexivity.
  - reflexivity.
Defined.

(** C2, as the specification states it, fails: the device "gateway" has no
    address and the empty filter admits it, yet the build does not fail
    with an error that names it; it fails with the indexing fault. *)
Lemma empty_addresses_not_precondition_violation :
  included [] device_gateway = true
  ∧ Device.addresses device_gateway = []
  ∧ build (DeviceCollection.mk [device_gateway]) []
    = Raise (IndexError "list index out of range")
  ∧ index 0 (Device.hostname device_gateway) "list index out of range" = None
  ∧ ¬ ∃ e, build (DeviceCollection.mk [device_gateway]) [] = Raise e
           ∧ precondition_violation_naming device_gateway e.
Proof.
  split; [done|]. split; [done|]. split; [done|]. split; [done|].
  intros (e & He & Hnot & _).
  vm_compute in He. injection He as <-. done.
Qed.

(** ** Hosts *)

(** C8. The iteration of a device the filter admits and that has an address
    adds a host named by the device's hostname and sets its ansible_host to
    the first address. In the result of a build the host is there, and when
    no other admitted device has the same hostname, its variables are
    ansible_host alone, with that address. *)
Theorem included_device_becomes_host tagFilter d a rest
  (Hincluded : included tagFilter d = true)
  (Haddresses : Device.addresses d = a :: rest) :
  (∀ inv, ∃ inv' vars,
      parse_device tagFilter d inv = (Ok tt, inv')
      ∧ hosts inv' !! Device.hostname d = Some vars
      ∧ vars !! "ansible_host" = Some a)
  ∧ (∀ devices r,
       build devices tagFilter = Ok r →
       d ∈ DeviceCollection.devices devices →
       Device.hostname d ∈ dom (hosts r)
       ∧ ((∀ d', d' ∈ DeviceCollection.devices devices →
                 included tagFilter d' = true →
                 Device.hostname d' = Device.hostname d → d' = d) →
          hosts r !! Device.hostname d = Some {[ "ansible_host" := a ]})).
Proof.
  split.
  - intros inv. rewrite parse_device_run, Hincluded, Haddresses.
    eexists _, _. split; [done|].
    rewrite hosts_apply_device, decide_True, Haddresses by done. simpl.
    split; [done|]. by rewrite lookup_insert_eq.
  - intros devices r Hbuild Hd. split.
    { rewrite build_hosts by done. by exists d. }
    intros Hunique. apply build_Ok in Hbuild as [Hok ->].
    rewrite hosts_apply_devices. simpl. rewrite lookup_empty.
    assert (is_Some (last_address
              (processed tagFilter (DeviceCollection.devices devices))
              (Device.hostname d))) as [a' Ha'].
    { apply (last_address_is_Some _ _ d); [|done|by rewrite Haddresses].
      by apply elem_of_processed. }
    rewrite Ha'. simpl.
    apply last_address_Some in Ha' as (d' & Hd' & Hh & Hhead).
    apply elem_of_processed in Hd' as [Hd' Hi']; [|done].
    rewrite (Hunique d' Hd' Hi' Hh), Haddresses in Hhead.
    injection Hhead as <-. by rewrite insert_empty.
Qed.

Lemma included_device_becomes_host_witness :
  hosts inventory_a !! "a" = Some {[ "ansible_host" := "10.0.0.1" ]}.
Proof.
  refine (proj2 (proj2 (included_device_becomes_host ["web"] device_a
                          "10.0.0.1" [] _ _) tailnet_ab inventory_a _ _) _).
  - reflexivity.
  - reflexivity.
  - by vm_compute.
  - simpl. apply elem_of_cons. by left.
  - intros d' [->|[->|[]%elem_of_nil]%elem_of_cons]%elem_of_cons; [done|].
    intros _ Hh. by vm_compute in Hh.
Defined.

(** ** Groups *)

Lemma parse_devices_preserves_invariant tags devices inv :
  groups_within_hosts inv →
  groups_within_hosts (parse_devices tags devices inv).2.
Proof.
  intros Hinv. rewrite parse_devices_run. simpl.
  set (l := processed tags (DeviceCollection.devices devices)).
  intros g ms h Hg Hh.
  rewrite groups_apply_devices in Hg by apply processed_addresses.
  rewrite elem_of_dom_hosts_apply_devices.
  unfold join_group in Hg.
  assert (h ∈ new_members l g ∨ h ∈ members inv g) as [Hnew|Hold].
  { unfold members. destruct (existsb (tagged_for g) l).
    - injection Hg as <-. set_solver.
    - right. by rewrite Hg. }
  - right. apply elem_of_new_members in Hnew as (d & Hd & Hhost & _).
    apply (last_address_is_Some _ _ d); [done..|].
    pose proof (processed_addresses tags (DeviceCollection.devices devices))
      as Hall.
    rewrite Forall_forall in Hall. by apply Hall.
  - left. unfold members in Hold.
    destruct (groups inv !! g) as [old|] eqn:E; [|set_solver].
    by apply (Hinv g old).
Qed.

(** C9. In the result of a build every member of every group is a host of
    the result; more generally the loop keeps this invariant of the inventory
    it is handed, also when it stops on an error. *)
Theorem group_members_are_hosts devices tagFilter :
  (∀ r, build devices tagFilter = Ok r → groups_within_hosts r)
  ∧ (∀ inv, groups_within_hosts inv →
            groups_within_hosts (parse_devices tagFilter devices inv).2).
Proof.
  split; [|apply parse_devices_preserves_invariant].
  intros r [_ ->]%build_Ok.
  pose proof (parse_devices_preserves_invariant tagFilter devices
                empty_inventory) as H.
  rewrite parse_devices_run in H. apply H.
  intros g ms h Hg. simpl in Hg. by rewrite lookup_empty in Hg.
Qed.

Lemma group_members_are_hosts_witness :
  groups_within_hosts inventory_a.
Proof.
  apply (proj1 (group_members_are_hosts tailnet_ab ["web"])).
  by vm_compute.
Defined.

Lemma slice_from_prefix (p s : string) :
  slice_from (String.length p) (p +:+ s) = s.
Proof. induction p as [|c p IH]; simpl; [by destruct s|done]. Qed.

Lemma slice_from_short n (s : string) :
  (String.length s <= n)%nat → slice_from n s = "".
Proof.
  revert s. induction n as [|n IH]; intros [|c s]; simpl; try done.
  - lia.
  - intros Hn. apply IH. lia.
Qed.

Lemma group_name_tag name : group_name ("tag:" +:+ name) = "tag_" +:+ name.
Proof. unfold group_name. by rewrite (slice_from_prefix "tag:"). Qed.

Lemma parse_device_group tags d tag inv :
  included tags d = true → Device.addresses d ≠ [] →
  tag ∈ default [] (Device.tags d) →
  ∃ inv', parse_device tags d inv = (Ok tt, inv')
          ∧ groups inv' !! group_name tag
            = Some ({[Device.hostname d]} ∪ members inv (group_name tag)).
Proof.
  intros Hi Ha Htag. rewrite parse_device_run, Hi.
  exists (apply_device d inv). split.
  { by destruct (Device.addresses d). }
  rewrite groups_apply_device by done.
  replace (tagged_for (group_name tag) d) with true; [done|].
  symmetry. apply tagged_for_spec. by exists tag.
Qed.

Lemma build_group tags devices r d tag :
  build devices tags = Ok r →
  d ∈ DeviceCollection.devices devices → included tags d = true →
  tag ∈ default [] (Device.tags d) →
  ∃ ms, groups r !! group_name tag = Some ms ∧ Device.hostname d ∈ ms.
Proof.
  intros Hbuild Hd Hi Htag.
  assert (Device.hostname d ∈ members r (group_name tag)) as Hm.
  { rewrite build_members by done. exists d.
    repeat split; try done. apply tagged_for_spec. by exists tag. }
  unfold members in Hm.
  destruct (groups r !! group_name tag) as [ms|]; [|set_solver].
  by exists ms.
Qed.

(** C3. For every tag "tag:" + name of a device the filter admits, whether
    or not that tag is the one the filter asked for, the iteration of the
    device leaves a group "tag_" + name that holds the device's hostname
    next to the members the group had before (none if it was absent), and
    the result of a build has that group with the hostname among its
    members. *)
Theorem every_tag_becomes_group tagFilter d name
  (Hincluded : included tagFilter d = true)
  (Htag : ("tag:" +:+ name) ∈ default [] (Device.tags d)) :
  (∀ inv, Device.addresses d ≠ [] →
     ∃ inv', parse_device tagFilter d inv = (Ok tt, inv')
             ∧ groups inv' !! ("tag_" +:+ name)
               = Some ({[Device.hostname d]} ∪ members inv ("tag_" +:+ name)))
  ∧ (∀ devices r,
       build devices tagFilter = Ok r →
       d ∈ DeviceCollection.devices devices →
       ∃ ms, groups r !! ("tag_" +:+ name) = Some ms
             ∧ Device.hostname d ∈ ms).
Proof.
  rewrite <- group_name_tag. split.
  - intros inv Ha. by apply parse_device_group.
  - intros devices r Hbuild Hd. by eapply build_group.
Qed.

Lemma every_tag_becomes_group_witness :
  ∃ r, build (DeviceCollection.mk [device_web_prod]) ["prod"] = Ok r
       ∧ (∃ ms, groups r !! "tag_web" = Some ms ∧ "w" ∈ ms)
       ∧ (∃ ms, groups r !! "tag_prod" = Some ms ∧ "w" ∈ ms).
Proof.
  eexists. split; [reflexivity|]. split.
  - refine (proj2 (every_tag_becomes_group ["prod"] device_web_prod "web" _ _)
              (DeviceCollection.mk [device_web_prod]) _ _ _).
    + reflexivity.
    + simpl. apply elem_of_cons. by left.
    + reflexivity.
    + simpl. apply elem_of_cons. by left.
  - refine (proj2 (every_tag_becomes_group ["prod"] device_web_prod "prod" _ _)
              (DeviceCollection.mk [device_web_prod]) _ _ _).
    + reflexivity.
    + simpl. apply elem_of_cons. right. apply elem_of_cons. by left.
    + reflexivity.
    + simpl. apply elem_of_cons. by left.
Defined.

(** C10. The group of a tag is "tag_" followed by the tag without its first
    four characters, whatever these are: a tag of four characters or fewer,
    such as "web", yields the group "tag_", and the build puts the host into
    the group so named. *)
Theorem group_name_drops_four_characters :
  (∀ c1 c2 c3 c4 rest,
     group_name (String c1 (String c2 (String c3 (String c4 rest))))
     = "tag_" +:+ rest)
  ∧ (∀ tag, (String.length tag <= 4)%nat → group_name tag = "tag_")
  ∧ group_name "web" = "tag_"
  ∧ (∀ tagFilter devices r d tag,
       build devices tagFilter = Ok r →
       d ∈ DeviceCollection.devices devices →
       included tagFilter d = true →
       tag ∈ default [] (Device.tags d) →
       ∃ ms, groups r !! ("tag_" +:+ slice_from 4 tag) = Some ms
             ∧ Device.hostname d ∈ ms).
Proof.
  split; [done|]. split; [|split; [done|]].
  - intros tag Hlen. unfold group_name. by rewrite slice_from_short.
  - intros tagFilter devices r d tag. apply build_group.
Qed.

Lemma group_name_drops_four_characters_witness :
  ∃ r, build (DeviceCollection.mk [device_bare_tag]) [] = Ok r
       ∧ ∃ ms, groups r !! "tag_" = Some ms ∧ "c" ∈ ms.
Proof.
  eexists. split; [reflexivity|].
  refine (proj2 (proj2 (proj2 group_name_drops_four_characters))
            [] (DeviceCollection.mk [device_bare_tag]) _ device_bare_tag "web"
            _ _ _ _).
  - reflexivity.
  - simpl. apply elem_of_cons. by left.
  - reflexivity.
  - simpl. apply elem_of_cons. by left.
Defined.

(** ** Idempotence *)

Lemma apply_devices_idempotent l inv :
  Forall (λ d, Device.addresses d ≠ []) l →
  apply_devices l (apply_devices l inv) = apply_devices l inv.
Proof.
  intros Hl.
  assert (∀ i1 i2, hosts i1 = hosts i2 → groups i1 = groups i2 → i1 = i2)
    as Heq.
  { intros [h1 g1] [h2 g2]; simpl. by intros -> ->. }
  apply Heq; apply map_eq; intros k.
  - rewrite !hosts_apply_devices.
    destruct (last_address l k); [|done]. apply write_host_twice.
  - rewrite !groups_apply_devices by done. unfold join_group.
    destruct (existsb (tagged_for k) l); [|done].
    simpl. f_equal. set_solver.
Qed.

(** C4. Running the loop again, with the same devices and the same filter,
    on the inventory the first run left ends the same way and leaves the
    same inventory: the same hosts with the same ansible_host values and the
    same members in the same groups. *)
Theorem build_idempotent devices tagFilter inv :
  parse_devices tagFilter devices (parse_devices tagFilter devices inv).2
  = parse_devices tagFilter devices inv.
Proof.
  rewrite !parse_devices_run. simpl.
  by rewrite apply_devices_idempotent by apply processed_addresses.
Qed.

(** ** The token *)

Lemma setup_cached client_id client_secret token_url w tok :
  files w !! ".tailscale_token.json" = Some (TokenJson tok) →
  TailscaleOAuth2API.setup client_id client_secret token_url w
  = (Ok (TailscaleOAuth2API.mk client_id client_secret token_url
           ".tailscale_token.json" (Some tok)), w).
Proof.
  intros Hf.
  unfold TailscaleOAuth2API.setup, TailscaleOAuth2API.connect,
    TailscaleOAuth2API.load_token, bind, get; simpl.
  by rewrite Hf.
Qed.

Lemma setup_malformed client_id client_secret token_url w text msg :
  files w !! ".tailscale_token.json" = Some (Malformed text msg) →
  TailscaleOAuth2API.setup client_id client_secret token_url w
  = (Raise (JSONDecodeError msg), w).
Proof.
  intros Hf.
  unfold TailscaleOAuth2API.setup, TailscaleOAuth2API.connect,
    TailscaleOAuth2API.load_token, bind, get; simpl.
  by rewrite Hf.
Qed.

Lemma setup_absent client_id client_secret token_url w :
  files w !! ".tailscale_token.json" = None →
  TailscaleOAuth2API.setup client_id client_secret token_url w
  = (match token_endpoint w client_id client_secret token_url with
     | Ok tok =>
         Ok (TailscaleOAuth2API.mk client_id client_secret token_url
               ".tailscale_token.json" (Some tok))
     | Raise e => Raise e
     end,
     log (FetchToken client_id client_secret token_url) w).
Proof.
  intros Hf.
  unfold TailscaleOAuth2API.setup, TailscaleOAuth2API.connect,
    TailscaleOAuth2API.load_token, bind, get; simpl.
  rewrite Hf.
  unfold TailscaleOAuth2API.get_token, TailscaleOAuth2API.fetch_token,
    bind, get, modify, lift_result.
  simpl. by destruct (token_endpoint w client_id client_secret token_url).
Qed.

Lemma setup_files client_id client_secret token_url w :
  files (TailscaleOAuth2API.setup client_id client_secret token_url w).2
  = files w.
Proof.
  destruct (files w !! ".tailscale_token.json") as [[tok|text msg]|] eqn:Hf.
  - by erewrite setup_cached.
  - by erewrite setup_malformed.
  - by rewrite setup_absent.
Qed.

(** ** The device listing *)

Lemma get_devices_run self w tailnet tok v response :
  TailscaleOAuth2API.token self = Some tok →
  tok !! "access_token" = Some v →
  api_endpoint w (devices_url tailnet) (bearer v) = Ok response →
  TailscaleOAuth2API.get_devices tailnet (TailscaleOAuth2API.mkSt self w)
  = (if (Response.status_code response =? 200)%Z
     then Response.json response
     else Raise (Exception (api_error_message
                              (Response.status_code response)
                              (Response.text response))),
     TailscaleOAuth2API.mkSt self
       (log (HttpGet (devices_url tailnet) (bearer v)) w)).
Proof.
  intros Htok Hv Hresp.
  unfold TailscaleOAuth2API.get_devices, TailscaleOAuth2API.access_token,
    TailscaleOAuth2API.client_get, bind, get, modify, lift_result; simpl.
  rewrite Htok, Hv; simpl.
  fold (devices_url tailnet). fold (bearer v). rewrite Hresp.
  by destruct (Response.status_code response =? 200)%Z.
Qed.

Lemma get_devices_files tailnet st :
  files (TailscaleOAuth2API.world
           (TailscaleOAuth2API.get_devices tailnet st).2)
  = files (TailscaleOAuth2API.world st).
Proof.
  unfold TailscaleOAuth2API.get_devices, TailscaleOAuth2API.access_token,
    TailscaleOAuth2API.client_get, bind, get, modify, lift_result, raise, ret;
    simpl.
  destruct (TailscaleOAuth2API.token (TailscaleOAuth2API.self st))
    as [tok|]; [|done].
  destruct (tok !! "access_token") as [v|]; [|done]. simpl.
  destruct (api_endpoint _ _ _) as [response|e]; [|done].
  by destruct (Response.status_code response =? 200)%Z.
Qed.

Lemma parse_run options p :
  parse options p
  = match aparse (Options.client_id options) (Options.client_secret options)
            (Options.tailnet options) (world p) with
    | (Ok devices, w) =>
        match parse_devices (Options.tags options) devices (inventory p) with
        | (r, inv) => (r, mkProcess w inv)
        end
    | (Raise e, w) => (Raise e, mkProcess w (inventory p))
    end.
Proof.
  unfold parse, bind, in_world, in_inventory.
  destruct (aparse _ _ _ _) as [[devices|e] w]; simpl; [|done].
  by destruct (parse_devices _ _ _).
Qed.

Lemma aparse_run client_id client_secret tailnet w :
  aparse client_id client_secret tailnet w
  = match TailscaleOAuth2API.setup client_id client_secret TOKEN_URL w with
    | (Ok tailscale, w1) =>
        match TailscaleOAuth2API.get_devices tailnet
                (TailscaleOAuth2API.mkSt tailscale w1) with
        | (r, s) => (r, TailscaleOAuth2API.world s)
        end
    | (Raise e, w1) => (Raise e, w1)
    end.
Proof.
  unfold aparse, bind.
  by destruct (TailscaleOAuth2API.setup _ _ _ _) as [[tailscale|e] w1].
Qed.

(** ** The message of the listing error carries the status and the body *)

Lemma colon_free_uint d : colon_free (NilEmpty.string_of_uint d).
Proof. induction d; simpl; try done; by split. Qed.

Lemma colon_free_str_int n : colon_free (str_int n).
Proof.
  unfold str_int. destruct n as [|p|p]; simpl.
  - done.
  - pose proof (colon_free_uint (Pos.to_uint p)).
    by destruct (Pos.to_uint p).
  - split; [done|].
    pose proof (colon_free_uint (Pos.to_uint p)).
    by destruct (Pos.to_uint p).
Qed.

Lemma str_int_inj n1 n2 : str_int n1 = str_int n2 → n1 = n2.
Proof.
  unfold str_int. intros Heq. apply DecimalZ.to_int_inj.
  assert (∀ n, NilZero.int_of_string (NilZero.string_of_int (Z.to_int n))
               = Some (Z.to_int n)) as Hparse.
  { intros n. apply NilZero.isi; destruct n as [|p|p]; simpl; try done.
    - intros [= Hp]. by apply Unsigned.to_uint_nonnil in Hp.
    - intros [= Hp]. by apply Unsigned.to_uint_nonnil in Hp. }
  apply (f_equal NilZero.int_of_string) in Heq.
  rewrite !Hparse in Heq. by injection Heq.
Qed.

Lemma colon_split x1 x2 b1 b2 :
  colon_free x1 → colon_free x2 →
  x1 +:+ String ":" b1 = x2 +:+ String ":" b2 → x1 = x2 ∧ b1 = b2.
Proof.
  revert x2. induction x1 as [|c1 x1 IH]; intros [|c2 x2]; simpl.
  - intros _ _ [= ->]. done.
  - intros _ [Hc _] [= <-]. done.
  - intros [Hc _] _ [= ->]. done.
  - intros [_ H1] [_ H2] [= -> Heq].
    destruct (IH x2 H1 H2 Heq) as [-> ->]. done.
Qed.

Lemma api_error_message_inj status1 text1 status2 text2 :
  api_error_message status1 text1 = api_error_message status2 text2 →
  status1 = status2 ∧ text1 = text2.
Proof.
  unfold api_error_message. simpl. intros [= Heq].
  apply colon_split in Heq as [Hs [= Ht]]; try apply colon_free_str_int.
  split; [by apply str_int_inj|done].
Qed.

(** C5. Once the request has been answered, [get_devices] returns what the
    body decodes to when the status is 200; for any other status it raises
    an exception whose message is made of the status and the raw body, and
    from which both can be read back, and [parse] then ends with that
    exception and leaves the inventory as it was handed. *)
Theorem get_devices_by_status self w tailnet tok v response
  (Htoken : TailscaleOAuth2API.token self = Some tok)
  (Haccess : tok !! "access_token" = Some v)
  (Hresponse : api_endpoint w (devices_url tailnet) (bearer v) = Ok response) :
  let status := Response.status_code response in
  let failure :=
    Exception (api_error_message status (Response.text response)) in
  let w' := log (HttpGet (devices_url tailnet) (bearer v)) w in
  (status = 200%Z →
   TailscaleOAuth2API.get_devices tailnet (TailscaleOAuth2API.mkSt self w)
   = (Response.json response, TailscaleOAuth2API.mkSt self w'))
  ∧ (status ≠ 200%Z →
     TailscaleOAuth2API.get_devices tailnet (TailscaleOAuth2API.mkSt self w)
     = (Raise failure, TailscaleOAuth2API.mkSt self w')
     ∧ ∀ options p,
         Options.tailnet options = tailnet →
         TailscaleOAuth2API.setup (Options.client_id options)
           (Options.client_secret options) TOKEN_URL (world p) = (Ok self, w) →
         parse options p = (Raise failure, mkProcess w' (inventory p)))
  ∧ (∀ status' text',
       api_error_message status (Response.text response)
       = api_error_message status' text' →
       status' = status ∧ text' = Response.text response).
Proof.
  intros status failure w'.
  pose proof (get_devices_run self w tailnet tok v response
                Htoken Haccess Hresponse) as Hrun.
  fold status in Hrun. split; [|split].
  - intros H200. rewrite Hrun. by rewrite H200.
  - intros Hnot. apply Z.eqb_neq in Hnot. rewrite Hnot in Hrun.
    split; [done|].
    intros options p Htailnet Hsetup.
    rewrite parse_run, aparse_run, Hsetup, Htailnet, Hrun. done.
  - intros status' text' Heq.
    apply api_error_message_inj in Heq as [-> ->]. done.
Qed.

Lemma get_devices_by_status_witness :
  parse options_example (mkProcess world_no_cache empty_inventory)
  = (Raise (Exception "Error: 403: forbidden"),
     mkProcess
       (log (HttpGet (devices_url "example.com") (bearer (VStr "tskey-abc")))
          (log (FetchToken "client" "secret" TOKEN_URL) world_no_cache))
       empty_inventory).
Proof.
  refine (proj2 (proj1 (proj2
    (get_devices_by_status
       (TailscaleOAuth2API.mk "client" "secret" TOKEN_URL
          ".tailscale_token.json" (Some granted_token))
       (log (FetchToken "client" "secret" TOKEN_URL) world_no_cache)
       "example.com" granted_token (VStr "tskey-abc") forbidden _ _ _)) _)
    options_example (mkProcess world_no_cache empty_inventory) _ _).
  - reflexivity.
  - by vm_compute.
  - reflexivity.
  - done.
  - reflexivity.
  - by vm_compute.
Defined.

(** C6, as the code has it. A token file that exists and that [json.load]
    rejects makes [setup] fail with the JSONDecodeError, with no call to the
    token endpoint; the endpoint is called exactly when there is no token
    file. *)
Theorem corrupt_cache_is_fatal client_id client_secret token_url w :
  (∀ text msg,
     files w !! ".tailscale_token.json" = Some (Malformed text msg) →
     TailscaleOAuth2API.setup client_id client_secret token_url w
     = (Raise (JSONDecodeError msg), w))
  ∧ (is_Some (files w !! ".tailscale_token.json") →
     trace (TailscaleOAuth2API.setup client_id client_secret token_url w).2
     = trace w)
  ∧ (files w !! ".tailscale_token.json" = None →
     trace (TailscaleOAuth2API.setup client_id client_secret token_url w).2
     = (trace w ++ [FetchToken client_id client_secret token_url])%list).
Proof.
  split; [|split].
  - intros text msg Hf. by apply (setup_malformed _ _ _ _ text).
  - intros [[tok|text msg] Hf].
    + by erewrite setup_cached.
    + by erewrite setup_malformed.
  - intros Hf. by rewrite setup_absent.
Qed.

Lemma corrupt_cache_is_fatal_witness :
  TailscaleOAuth2API.setup "client" "secret" TOKEN_URL world_corrupt_cache
  = (Raise (JSONDecodeError "Expecting property name"), world_corrupt_cache).
Proof.
  apply (proj1 (corrupt_cache_is_fatal "client" "secret" TOKEN_URL
                  world_corrupt_cache) "{oops").
  by vm_compute.
Defined.

(** C6, as the specification states it, fails: with a malformed token file
    and a token endpoint that would grant a token, [setup] does not come
    back with a token. *)
Lemma corrupt_cache_not_rederived :
  files world_corrupt_cache !! ".tailscale_token.json"
  = Some (Malformed "{oops" "Expecting property name")
  ∧ token_endpoint world_corrupt_cache "client" "secret" TOKEN_URL
    = Ok granted_token
  ∧ ¬ ∃ tailscale w',
        TailscaleOAuth2API.setup "client" "secret" TOKEN_URL
          world_corrupt_cache = (Ok tailscale, w').
Proof.
  split; [by vm_compute|]. split; [done|].
  intros (tailscale & w' & Hsetup).
  erewrite setup_malformed in Hsetup; [done|by vm_compute].
Qed.

Lemma parse_files options p :
  files (world (parse options p).2) = files (world p).
Proof.
  rewrite parse_run, aparse_run.
  pose proof (setup_files (Options.client_id options)
                (Options.client_secret options) TOKEN_URL (world p)) as Hs.
  destruct (TailscaleOAuth2API.setup _ _ _ _) as [[tailscale|e] w1];
    simpl in *; [|done].
  pose proof (get_devices_files (Options.tailnet options)
                (TailscaleOAuth2API.mkSt tailscale w1)) as Hg.
  destruct (TailscaleOAuth2API.get_devices _ _) as [[devices|e] s];
    simpl in *; [|congruence].
  destruct (parse_devices _ _ _). simpl. congruence.
Qed.

(** C7, on the code. No run writes the token file: [parse] leaves the files
    as they were. Without a token file, [setup] obtains the granted token and
    keeps it in the object only; the file is still absent afterwards, and
    the next [setup] asks the token endpoint again. *)
Theorem token_is_never_stored :
  (∀ options p, files (world (parse options p).2) = files (world p))
  ∧ (let first :=
       TailscaleOAuth2API.setup "client" "secret" TOKEN_URL world_no_cache in
     first.1 = Ok (TailscaleOAuth2API.mk "client" "secret" TOKEN_URL
                     ".tailscale_token.json" (Some granted_token))
     ∧ files first.2 !! ".tailscale_token.json" = None
     ∧ trace (TailscaleOAuth2API.setup "client" "secret" TOKEN_URL first.2).2
       = [FetchToken "client" "secret" TOKEN_URL;
          FetchToken "client" "secret" TOKEN_URL]).
Proof.
  split; [apply parse_files|].
  by vm_compute.
Qed.

(** * Further properties of the grouping loop *)

Lemma for_each_app {St A} (body : A → M St unit) (l1 l2 : list A) (s : St) :
  for_each body (l1 ++ l2) s = (for_each body l1 ;;; for_each body l2) s.
Proof.
  revert s. induction l1 as [|x l1 IH]; intros s; simpl.
  - done.
  - unfold bind. destruct (body x s) as [[[]|e] s1]; [|done].
    rewrite IH. done.
Qed.

(** X1. The loop does not undo what it has done when it fails: with a
    device that the filter admits and that has no address, it raises the
    IndexError and leaves the inventory as the devices before that one made
    it; the devices after it are not looked at. *)
Theorem parse_devices_stops_at_first_fault tagFilter before d after inv
  (Hbefore : (parse_devices tagFilter (DeviceCollection.mk before) inv).1
             = Ok tt)
  (Hincluded : included tagFilter d = true)
  (Hempty : Device.addresses d = []) :
  parse_devices tagFilter (DeviceCollection.mk (before ++ d :: after)) inv
  = (Raise (IndexError "list index out of range"),
     (parse_devices tagFilter (DeviceCollection.mk before) inv).2).
Proof.
  unfold parse_devices in *. simpl in *. rewrite for_each_app. unfold bind.
  destruct (for_each (parse_device tagFilter) before inv) as [[[]|e] inv1];
    simpl in *; [|done].
  unfold bind. by rewrite parse_device_run, Hincluded, Hempty.
Qed.

Lemma parse_devices_stops_at_first_fault_witness :
  parse_devices [] (DeviceCollection.mk [device_a; device_gateway; device_b])
    empty_inventory
  = (Raise (IndexError "list index out of range"),
     (parse_devices [] (DeviceCollection.mk [device_a]) empty_inventory).2).
Proof.
  apply (parse_devices_stops_at_first_fault [] [device_a] device_gateway
           [device_b] empty_inventory); reflexivity.
Defined.

Lemma outcome_Ok_iff tags ds :
  outcome tags ds = Ok tt
  ↔ ∀ d, d ∈ ds → included tags d = true → Device.addresses d ≠ [].
Proof.
  split.
  - intros Hok d. by apply outcome_Ok_addresses.
  - induction ds as [|d ds IH]; simpl; [done|]. intros Hall.
    assert (outcome tags ds = Ok tt) as Hrest.
    { apply IH. intros d' Hd'. apply Hall. by apply elem_of_cons; right. }
    destruct (included tags d) eqn:Hi; [|done].
    destruct (Device.addresses d) eqn:Ha; [|done].
    exfalso. apply (Hall d); [by apply elem_of_cons; left|done..].
Qed.

Lemma build_Ok_exists devices tags :
  (∃ r, build devices tags = Ok r)
  ↔ outcome tags (DeviceCollection.devices devices) = Ok tt.
Proof.
  rewrite build_run.
  destruct (outcome tags (DeviceCollection.devices devices)) as [[]|e].
  - split; [done|by eexists].
  - split; [by intros [r ?]|done].
Qed.



Lemma elem_of_processed_included tags ds d :
  d ∈ processed tags ds → d ∈ ds ∧ included tags d = true.
Proof.
  induction ds as [|d' ds IH]; simpl; [set_solver|].
  destruct (included tags d') eqn:Hi.
  - destruct (Device.addresses d'); [set_solver|].
    intros [->|Hd]%elem_of_cons; [set_solver|].
    destruct (IH Hd). set_solver.
  - intros Hd. destruct (IH Hd). set_solver.
Qed.

Lemma last_address_None l h :
  (∀ d, d ∈ l → Device.hostname d ≠ h) → last_address l h = None.
Proof.
  intros Hl. destruct (last_address l h) as [a|] eqn:E; [|done].
  apply last_address_Some in E as (d & Hd & Hh & _). by destruct (Hl d).
Qed.

Lemma existsb_tagged_for_false l g :
  (∀ d, d ∈ l → tagged_for g d = false) → existsb (tagged_for g) l = false.
Proof.
  induction l as [|d l IH]; simpl; [done|]. intros Hl.
  rewrite (Hl d) by (by apply elem_of_cons; left). simpl.
  apply IH. intros d' Hd'. apply Hl. by apply elem_of_cons; right.
Qed.

(** X3. The loop only adds: a host of the inventory it is handed is still
    there afterwards with every variable other than ansible_host as it was,
    and a group is still there with at least the members it had. *)
Theorem parse_devices_only_adds tagFilter devices inv :
  let inv' := (parse_devices tagFilter devices inv).2 in
  (∀ h vars, hosts inv !! h = Some vars →
     ∃ vars', hosts inv' !! h = Some vars'
              ∧ ∀ k, k ≠ "ansible_host" → vars' !! k = vars !! k)
  ∧ (∀ g ms, groups inv !! g = Some ms →
       ∃ ms', groups inv' !! g = Some ms' ∧ ms ⊆ ms').
Proof.
  simpl. rewrite parse_devices_run. simpl. split.
  - intros h vars Hh. rewrite hosts_apply_devices, Hh.
    destruct (last_address _ h) as [a|]; simpl.
    + eexists. split; [done|]. intros k Hk. by rewrite lookup_insert_ne.
    + by eexists.
  - intros g ms Hg.
    rewrite groups_apply_devices, Hg by apply processed_addresses.
    unfold join_group. destruct (existsb _ _); simpl.
    + eexists. split; [done|]. set_solver.
    + by eexists.
Qed.

(** X4. The loop touches nothing but what its devices name: a host name that
    no admitted device bears keeps its entry, and a group that no tag of an
    admitted device yields keeps its entry, absent ones staying absent. *)
Theorem parse_devices_frame tagFilter devices inv :
  let inv' := (parse_devices tagFilter devices inv).2 in
  (∀ h, (∀ d, d ∈ DeviceCollection.devices devices →
              included tagFilter d = true → Device.hostname d ≠ h) →
        hosts inv' !! h = hosts inv !! h)
  ∧ (∀ g, (∀ d tag, d ∈ DeviceCollection.devices devices →
                    included tagFilter d = true →
                    tag ∈ default [] (Device.tags d) → group_name tag ≠ g) →
          groups inv' !! g = groups inv !! g).
Proof.
  simpl. rewrite parse_devices_run. simpl. split.
  - intros h Hh. rewrite hosts_apply_devices, last_address_None; [done|].
    intros d [Hd Hi]%elem_of_processed_included. by apply Hh.
  - intros g Hg. rewrite groups_apply_devices by apply processed_addresses.
    rewrite existsb_tagged_for_false; [done|].
    intros d [Hd Hi]%elem_of_processed_included.
    destruct (tagged_for g d) eqn:Ht; [|done].
    apply tagged_for_spec in Ht as (tag & Htag & Hname).
    by destruct (Hg d tag).
Qed.

Lemma parse_devices_frame_witness :
  hosts (parse_devices ["web"] tailnet_ab inventory_a).2 !! "b"
  = hosts inventory_a !! "b".
Proof.
  apply (proj1 (parse_devices_frame ["web"] tailnet_ab inventory_a)).
  intros d [->|[->|[]%elem_of_nil]%elem_of_cons]%elem_of_cons; done.
Defined.

Lemma parse_devices_only_adds_witness :
  ∃ vars', hosts (parse_devices [] tailnet_ab inventory_a).2 !! "a"
           = Some vars'
           ∧ ∀ k, k ≠ "ansible_host"
                  → vars' !! k
                    = ({[ "ansible_host" := "10.0.0.1" ]} : gmap string string)
                        !! k.
Proof.
  apply (proj1 (parse_devices_only_adds [] tailnet_ab inventory_a) "a").
  by vm_compute.
Defined.

Lemma outcome_app tags l1 l2 :
  outcome tags (l1 ++ l2) = Ok tt →
  outcome tags l1 = Ok tt ∧ outcome tags l2 = Ok tt.
Proof.
  rewrite !outcome_Ok_iff. intros Hall.
  split; intros d Hd; apply Hall; apply elem_of_app; [by left|by right].
Qed.

Lemma processed_app tags l1 l2 :
  outcome tags l1 = Ok tt →
  processed tags (l1 ++ l2) = (processed tags l1 ++ processed tags l2)%list.
Proof.
  induction l1 as [|d l1 IH]; simpl; [done|].
  destruct (included tags d); [|done].
  destruct (Device.addresses d); [done|].
  intros Hok. by rewrite IH.
Qed.

Lemma last_address_app l1 l2 h :
  last_address (l1 ++ l2) h
  = match last_address l2 h with
    | Some a => Some a
    | None => last_address l1 h
    end.
Proof.
  induction l1 as [|d l1 IH]; simpl.
  - by destruct (last_address l2 h).
  - rewrite IH. by destruct (last_address l2 h).
Qed.

(** X5. When several admitted devices bear the same hostname, the last one
    in the order of the listing decides: the host's ansible_host is the
    first address of an admitted device that no later admitted device of
    the same hostname follows. *)
Theorem last_device_sets_address tagFilter before d after a rest r
  (Hbuild : build (DeviceCollection.mk (before ++ d :: after)) tagFilter
            = Ok r)
  (Hincluded : included tagFilter d = true)
  (Haddresses : Device.addresses d = a :: rest)
  (Hlast : ∀ d', d' ∈ after → included tagFilter d' = true →
                 Device.hostname d' ≠ Device.hostname d) :
  hosts r !! Device.hostname d = Some {[ "ansible_host" := a ]}.
Proof.
  apply build_Ok in Hbuild as [Hok ->]. simpl in *.
  pose proof (outcome_app _ _ _ Hok) as [Hok1 Hok2].
  rewrite hosts_apply_devices, processed_app, last_address_app by done.
  simpl. rewrite Hincluded, Haddresses. simpl.
  rewrite (last_address_None (processed tagFilter after)).
  - rewrite decide_True, Haddresses by done. simpl.
    rewrite lookup_empty. simpl. by rewrite insert_empty.
  - intros d' [Hd' Hi']%elem_of_processed_included. by apply Hlast.
Qed.

Lemma last_device_sets_address_witness :
  ∃ r, build (DeviceCollection.mk
                [Device.mk "a" ["10.0.0.9"] None; device_a; device_b]) []
       = Ok r
       ∧ hosts r !! "a" = Some {[ "ansible_host" := "10.0.0.1" ]}.
Proof.
  eexists. split; [reflexivity|].
  refine (last_device_sets_address [] [Device.mk "a" ["10.0.0.9"] None]
            device_a [device_b] "10.0.0.1" [] _ _ _ _ _).
  - reflexivity.
  - reflexivity.
  - reflexivity.
  - intros d' [->|[]%elem_of_nil]%elem_of_cons; done.
Defined.

Lemma build_groups_is_Some devices tags r g :
  build devices tags = Ok r →
  is_Some (groups r !! g)
  ↔ ∃ d, d ∈ DeviceCollection.devices devices
         ∧ included tags d = true ∧ tagged_for g d = true.
Proof.
  intros [Hok ->]%build_Ok.
  rewrite groups_apply_devices by apply processed_addresses.
  simpl. rewrite lookup_empty. unfold join_group.
  destruct (existsb _ _) eqn:E.
  - split; [intros _|by eexists].
    apply existsb_exists in E as (d & Hd%list_elem_of_In & Ht).
    apply elem_of_processed in Hd as [? ?]; [|done]. by exists d.
  - split; [by intros [? ?]|]. intros (d & Hd & Hi & Ht).
    assert (existsb (tagged_for g)
              (processed tags (DeviceCollection.devices devices)) = true)
      as E'; [|congruence].
    apply existsb_exists. exists d. split; [|done].
    apply list_elem_of_In. by apply elem_of_processed.
Qed.

Lemma build_groups_lookup devices tags r g ms :
  build devices tags = Ok r → groups r !! g = Some ms → ms = members r g.
Proof. intros _ Hg. unfold members. by rewrite Hg. Qed.

(** X6. Groups and hosts do not depend on the order of the listing: two
    listings with the same devices in another order succeed together, and
    their results have the same groups with the same members and the same
    host names. *)
Theorem build_order_independent devices1 devices2 tagFilter r1
  (Hperm : devices1 ≡ₚ devices2)
  (Hbuild : build (DeviceCollection.mk devices1) tagFilter = Ok r1) :
  ∃ r2, build (DeviceCollection.mk devices2) tagFilter = Ok r2
        ∧ groups r2 = groups r1
        ∧ dom (hosts r2) = dom (hosts r1).
Proof.
  destruct (proj2 (build_Ok_exists (DeviceCollection.mk devices2) tagFilter))
    as [r2 Hbuild2].
  { apply outcome_Ok_iff. simpl. intros d Hd. rewrite <- Hperm in Hd.
    revert d Hd. apply outcome_Ok_iff.
    apply (proj1 (build_Ok_exists (DeviceCollection.mk devices1) tagFilter)).
    by eexists. }
  exists r2. split; [done|].
  assert (∀ g h, h ∈ members r2 g ↔ h ∈ members r1 g) as Hmembers.
  { intros g h. rewrite !build_members by done. simpl.
    by setoid_rewrite Hperm. }
  split.
  - apply map_eq. intros g.
    pose proof (build_groups_is_Some _ _ _ g Hbuild) as H1.
    pose proof (build_groups_is_Some _ _ _ g Hbuild2) as H2.
    simpl in H1, H2. setoid_rewrite <- Hperm in H2. rewrite <- H1 in H2.
    destruct (groups r1 !! g) as [ms1|] eqn:E1,
             (groups r2 !! g) as [ms2|] eqn:E2.
    + f_equal. apply set_eq. intros h.
      rewrite (build_groups_lookup _ _ _ _ _ Hbuild E1).
      rewrite (build_groups_lookup _ _ _ _ _ Hbuild2 E2). apply Hmembers.
    + destruct (proj2 H2) as [? ?]; by eauto.
    + destruct (proj1 H2) as [? ?]; by eauto.
    + done.
  - apply set_eq. intros h. rewrite !build_hosts by done. simpl.
    by setoid_rewrite Hperm.
Qed.

Lemma build_order_independent_witness :
  ∃ r2, build (DeviceCollection.mk [device_b; device_a]) ["web"] = Ok r2
        ∧ groups r2 = groups inventory_a
        ∧ dom (hosts r2) = dom (hosts inventory_a).
Proof.
  apply (build_order_independent [device_a; device_b] [device_b; device_a]).
  - apply perm_swap.
  - by vm_compute.
Defined.

(** X7. A build makes no group but those of the tags: every group of the
    result is named "tag_" + tag[4:] for a tag of a device the filter
    admits, and that device is among its members, so no group is empty. *)
Theorem groups_come_from_tags devices tagFilter r g ms
  (Hbuild : build devices tagFilter = Ok r)
  (Hgroup : groups r !! g = Some ms) :
  ∃ d tag, d ∈ DeviceCollection.devices devices
           ∧ included tagFilter d = true
           ∧ tag ∈ default [] (Device.tags d)
           ∧ g = "tag_" +:+ slice_from 4 tag
           ∧ Device.hostname d ∈ ms.
Proof.
  destruct (proj1 (build_groups_is_Some _ _ _ g Hbuild))
    as (d & Hd & Hi & Ht); [by eexists|].
  pose proof Ht as (tag & Htag & Hname)%tagged_for_spec.
  exists d, tag. repeat split; try done.
  rewrite (build_groups_lookup _ _ _ _ _ Hbuild Hgroup).
  rewrite build_members by done. by exists d.
Qed.

Lemma groups_come_from_tags_witness :
  ∃ d tag, d ∈ DeviceCollection.devices tailnet_ab
           ∧ included ["web"] d = true
           ∧ tag ∈ default [] (Device.tags d)
           ∧ "tag_web" = "tag_" +:+ slice_from 4 tag
           ∧ Device.hostname d ∈ ({[ "a" ]} : gset string).
Proof.
  apply (groups_come_from_tags tailnet_ab ["web"] inventory_a "tag_web").
  - by vm_compute.
  - by vm_compute.
Defined.

Lemma included_no_tags tags d :
  Device.tags d = None → included tags d = py_not tags.
Proof.
  intros Hnotags. unfold included. rewrite Hnotags.
  assert (existsb (λ tag, bool_decide
                     (("tag:" +:+ tag) ∈ default [] (@None (list string))))
            tags = false) as ->.
  { induction tags as [|x l IH]; [done|]. cbn [existsb].
    rewrite IH, bool_decide_eq_false_2; [done|]. by intros ?%elem_of_nil. }
  apply orb_false_r.
Qed.

(** X8. A device whose record has no "tags" key is read as having no tags:
    only the empty filter admits it, and its iteration adds the host but
    leaves every group as it was. *)
Theorem untagged_device tagFilter d (Hnotags : Device.tags d = None) :
  (included tagFilter d = true ↔ tagFilter = [])
  ∧ (∀ inv, groups (parse_device tagFilter d inv).2 = groups inv)
  ∧ (∀ inv a rest, tagFilter = [] → Device.addresses d = a :: rest →
       Device.hostname d ∈ dom (hosts (parse_device tagFilter d inv).2)).
Proof.
  split; [|split].
  - rewrite included_no_tags by done. by destruct tagFilter.
  - intros inv. rewrite parse_device_run.
    destruct (included tagFilter d); [|done].
    unfold apply_device. rewrite Hnotags.
    destruct (Device.addresses d); [done|]. simpl.
    unfold add_host. by destruct (hosts inv !! Device.hostname d).
  - intros inv a rest -> Ha. rewrite parse_device_run. simpl.
    rewrite Ha. simpl. rewrite elem_of_dom, hosts_apply_device.
    rewrite decide_True, Ha by done. simpl. by eexists.
Qed.

Lemma untagged_device_witness :
  included ["web"] (Device.mk "n" ["10.0.0.3"] None) = true ↔ ["web"] = [].
Proof.
  apply (untagged_device ["web"] (Device.mk "n" ["10.0.0.3"] None)).
  reflexivity.
Defined.

(** * Further properties of the client and of parse *)

Lemma parse_after_setup options p tailscale w tok v :
  TailscaleOAuth2API.setup (Options.client_id options)
    (Options.client_secret options) TOKEN_URL (world p) = (Ok tailscale, w) →
  TailscaleOAuth2API.token tailscale = Some tok →
  tok !! "access_token" = Some v →
  parse options p
  = match api_endpoint w (devices_url (Options.tailnet options)) (bearer v)
    with
    | Ok response =>
        if (Response.status_code response =? 200)%Z then
          match Response.json response with
          | Ok devices =>
              ((parse_devices (Options.tags options) devices (inventory p)).1,
               mkProcess
                 (log (HttpGet (devices_url (Options.tailnet options))
                         (bearer v)) w)
                 (parse_devices (Options.tags options) devices
                    (inventory p)).2)
          | Raise e =>
              (Raise e,
               mkProcess
                 (log (HttpGet (devices_url (Options.tailnet options))
                         (bearer v)) w)
                 (inventory p))
          end
        else
          (Raise (Exception (api_error_message
                               (Response.status_code response)
                               (Response.text response))),
           mkProcess
             (log (HttpGet (devices_url (Options.tailnet options))
                     (bearer v)) w)
             (inventory p))
    | Raise e =>
        (Raise e,
         mkProcess
           (log (HttpGet (devices_url (Options.tailnet options)) (bearer v)) w)
           (inventory p))
    end.
Proof.
  intros Hsetup Htok Hv. rewrite parse_run, aparse_run, Hsetup.
  destruct (api_endpoint w _ _) as [response|e] eqn:Hresp.
  - rewrite (get_devices_run _ _ _ _ _ _ Htok Hv Hresp).
    destruct (Response.status_code response =? 200)%Z; [|done].
    destruct (Response.json response) as [devices|e]; [|done].
    by destruct (parse_devices _ _ _).
  - unfold TailscaleOAuth2API.get_devices, TailscaleOAuth2API.access_token,
      TailscaleOAuth2API.client_get, bind, get, modify, lift_result; simpl.
    rewrite Htok, Hv; simpl.
    fold (devices_url (Options.tailnet options)). fold (bearer v).
    by rewrite Hresp.
Qed.

(** X9. With a token file that holds a token, parse makes one call outside
    and no other: the request for the devices, with the access token of the
    file as bearer. The token endpoint is not asked and the client id and
    secret are not used; on a 200 answer that decodes, the outcome and the
    inventory are those of the loop over the decoded devices. *)
Theorem parse_with_cached_token options p tok v response devices
  (Hfile : files (world p) !! ".tailscale_token.json" = Some (TokenJson tok))
  (Haccess : tok !! "access_token" = Some v)
  (Hresponse : api_endpoint (world p) (devices_url (Options.tailnet options))
                 (bearer v) = Ok response)
  (Hstatus : Response.status_code response = 200%Z)
  (Hjson : Response.json response = Ok devices) :
  parse options p
  = ((parse_devices (Options.tags options) devices (inventory p)).1,
     mkProcess
       (log (HttpGet (devices_url (Options.tailnet options)) (bearer v))
          (world p))
       (parse_devices (Options.tags options) devices (inventory p)).2).
Proof.
  erewrite parse_after_setup; [|by apply setup_cached|done..].
  by rewrite Hresponse, Hstatus, Hjson.
Qed.

(** X10. Without a token file, parse asks the token endpoint once, with the
    client id, the client secret and the token URL of the API, and then
    requests the devices with the granted access token as bearer, in that
    order and nothing else; on a 200 answer that decodes, the outcome and the
    inventory are those of the loop. *)
Theorem parse_without_cached_token options p tok v response devices
  (Hfile : files (world p) !! ".tailscale_token.json" = None)
  (Hgrant : token_endpoint (world p) (Options.client_id options)
              (Options.client_secret options) TOKEN_URL = Ok tok)
  (Haccess : tok !! "access_token" = Some v)
  (Hresponse : api_endpoint (world p) (devices_url (Options.tailnet options))
                 (bearer v) = Ok response)
  (Hstatus : Response.status_code response = 200%Z)
  (Hjson : Response.json response = Ok devices) :
  parse options p
  = ((parse_devices (Options.tags options) devices (inventory p)).1,
     mkProcess
       (log (HttpGet (devices_url (Options.tailnet options)) (bearer v))
          (log (FetchToken (Options.client_id options)
                  (Options.client_secret options) TOKEN_URL) (world p)))
       (parse_devices (Options.tags options) devices (inventory p)).2).
Proof.
  rewrite (parse_after_setup options p
             (TailscaleOAuth2API.mk (Options.client_id options)
                (Options.client_secret options) TOKEN_URL
                ".tailscale_token.json" (Some tok))
             (log (FetchToken (Options.client_id options)
                     (Options.client_secret options) TOKEN_URL) (world p))
             tok v); [|by rewrite setup_absent, Hgrant|done..].
  simpl. by rewrite Hresponse, Hstatus, Hjson.
Qed.

(** X11. Without a token file, a token endpoint that refuses ends parse
    with the endpoint's error: the devices are not requested and the
    inventory is left as it was handed. *)
Theorem parse_token_refused options p e
  (Hfile : files (world p) !! ".tailscale_token.json" = None)
  (Hrefused : token_endpoint (world p) (Options.client_id options)
                (Options.client_secret options) TOKEN_URL = Raise e) :
  parse options p
  = (Raise e,
     mkProcess
       (log (FetchToken (Options.client_id options)
               (Options.client_secret options) TOKEN_URL) (world p))
       (inventory p)).
Proof.
  rewrite parse_run, aparse_run, setup_absent by done. by rewrite Hrefused.
Qed.

(** X12. [get_devices] sends nothing without an access token: on an object
    that has no token it raises TypeError, on a token without the key
    "access_token" it raises KeyError, and in both cases the world is as it
    was. A token file whose token lacks the key so ends parse with the
    KeyError, with no call outside and the inventory untouched. *)
Theorem get_devices_needs_access_token tailnet st :
  (TailscaleOAuth2API.token (TailscaleOAuth2API.self st) = None →
   TailscaleOAuth2API.get_devices tailnet st
   = (Raise (TypeError "'NoneType' object is not subscriptable"), st))
  ∧ (∀ tok,
       TailscaleOAuth2API.token (TailscaleOAuth2API.self st) = Some tok →
       tok !! "access_token" = None →
       TailscaleOAuth2API.get_devices tailnet st
       = (Raise (KeyError "access_token"), st))
  ∧ (∀ options p tok,
       files (world p) !! ".tailscale_token.json" = Some (TokenJson tok) →
       tok !! "access_token" = None →
       parse options p = (Raise (KeyError "access_token"), p)).
Proof.
  split; [|split].
  - intros Htok.
    unfold TailscaleOAuth2API.get_devices, TailscaleOAuth2API.access_token,
      bind, get, raise; simpl.
    by rewrite Htok.
  - intros tok Htok Hv.
    unfold TailscaleOAuth2API.get_devices, TailscaleOAuth2API.access_token,
      bind, get, raise; simpl.
    by rewrite Htok, Hv.
  - intros options p tok Hfile Hv.
    rewrite parse_run, aparse_run.
    erewrite setup_cached by done.
    unfold TailscaleOAuth2API.get_devices, TailscaleOAuth2API.access_token,
      bind, get, raise; simpl.
    rewrite Hv. by destruct p.
Qed.

(** X13. Once the client is set up with an access token, a request that
    fails on the way and a 200 answer whose body does not decode both end
    parse with that very error, after the one request, and leave the
    inventory as it was handed. *)
Theorem parse_listing_unusable options p tailscale w tok v e
  (Hsetup : TailscaleOAuth2API.setup (Options.client_id options)
              (Options.client_secret options) TOKEN_URL (world p)
            = (Ok tailscale, w))
  (Htoken : TailscaleOAuth2API.token tailscale = Some tok)
  (Haccess : tok !! "access_token" = Some v) :
  let url := devices_url (Options.tailnet options) in
  (api_endpoint w url (bearer v) = Raise e →
   parse options p
   = (Raise e, mkProcess (log (HttpGet url (bearer v)) w) (inventory p)))
  ∧ (∀ text,
       api_endpoint w url (bearer v) = Ok (Response.mk 200 text (Raise e)) →
       parse options p
       = (Raise e, mkProcess (log (HttpGet url (bearer v)) w) (inventory p))).
Proof.
  simpl. rewrite (parse_after_setup _ _ _ _ _ _ Hsetup Htoken Haccess).
  split.
  - by intros ->.
  - by intros text ->.
Qed.

Lemma parse_with_cached_token_witness :
  parse options_example (mkProcess world_cached empty_inventory)
  = ((parse_devices [] tailnet_ab empty_inventory).1,
     mkProcess
       (log (HttpGet (devices_url "example.com") (bearer (VStr "tskey-abc")))
          world_cached)
       (parse_devices [] tailnet_ab empty_inventory).2).
Proof.
  apply (parse_with_cached_token options_example
           (mkProcess world_cached empty_inventory) granted_token
           (VStr "tskey-abc") listing_ab tailnet_ab).
  - by vm_compute.
  - by vm_compute.
  - reflexivity.
  - reflexivity.
  - reflexivity.
Defined.

Lemma parse_without_cached_token_witness :
  parse options_example (mkProcess (world_listing ∅) empty_inventory)
  = ((parse_devices [] tailnet_ab empty_inventory).1,
     mkProcess
       (log (HttpGet (devices_url "example.com") (bearer (VStr "tskey-abc")))
          (log (FetchToken "client" "secret" TOKEN_URL) (world_listing ∅)))
       (parse_devices [] tailnet_ab empty_inventory).2).
Proof.
  apply (parse_without_cached_token options_example
           (mkProcess (world_listing ∅) empty_inventory) granted_token
           (VStr "tskey-abc") listing_ab tailnet_ab).
  - by vm_compute.
  - reflexivity.
  - by vm_compute.
  - reflexivity.
  - reflexivity.
  - reflexivity.
Defined.

Lemma parse_token_refused_witness :
  parse options_example (mkProcess world_refusing inventory_a)
  = (Raise (ExternalError "invalid_client"),
     mkProcess (log (FetchToken "client" "secret" TOKEN_URL) world_refusing)
       inventory_a).
Proof.
  apply (parse_token_refused options_example
           (mkProcess world_refusing inventory_a)).
  - by vm_compute.
  - reflexivity.
Defined.

Lemma get_devices_needs_access_token_witness :
  parse options_example (mkProcess world_keyless inventory_a)
  = (Raise (KeyError "access_token"), mkProcess world_keyless inventory_a).
Proof.
  apply (proj2 (proj2 (get_devices_needs_access_token "example.com"
                         (TailscaleOAuth2API.mkSt
                            (TailscaleOAuth2API.__init__ "client" "secret"
                               TOKEN_URL) world_keyless)))
           options_example (mkProcess world_keyless inventory_a)
           {[ "token_type" := VStr "Bearer" ]}).
  - by vm_compute.
  - by vm_compute.
Defined.

Lemma parse_listing_unusable_witness :
  parse options_example (mkProcess world_offline inventory_a)
  = (Raise (ExternalError "connection refused"),
     mkProcess
       (log (HttpGet (devices_url "example.com") (bearer (VStr "tskey-abc")))
          world_offline)
       inventory_a).
Proof.
  refine (proj1 (parse_listing_unusable options_example
                   (mkProcess world_offline inventory_a)
                   (TailscaleOAuth2API.mk "client" "secret" TOKEN_URL
                      ".tailscale_token.json" (Some granted_token))
                   world_offline granted_token (VStr "tskey-abc")
                   (ExternalError "connection refused") _ _ _) _).
  - by vm_compute.
  - reflexivity.
  - by vm_compute.
  - reflexivity.
Defined.

(** * The nodes command *)

Lemma included_no_filter d : included [] d = true.
Proof. done. Qed.

Lemma for_each_print_device ds t :
  for_each print_device ds t
  = (outcome [] ds, mkTerminal (outside t) (stdout t ++ printed ds)).
Proof.
  revert t. induction ds as [|d ds IH]; intros t; simpl.
  - rewrite app_nil_r. by destruct t.
  - unfold bind, print_device, bind, index0.
    destruct (Device.addresses d) as [|a rest]; simpl.
    + rewrite app_nil_r. by destruct t.
    + rewrite IH. simpl. by rewrite <- app_assoc.
Qed.

Lemma nodes_run obj t :
  nodes obj t
  = match aparse (TailnetConfig.client_id obj) (TailnetConfig.client_secret obj)
            (TailnetConfig.tailnet obj) (outside t) with
    | (Ok devices, w) =>
        (outcome [] (DeviceCollection.devices devices),
         mkTerminal w (stdout t ++ printed (DeviceCollection.devices devices)))
    | (Raise e, w) => (Raise e, mkTerminal w (stdout t))
    end.
Proof.
  unfold nodes, bind at 1, in_outside.
  change (bind (TailscaleOAuth2API.setup _ _ _) _)
    with (aparse (TailnetConfig.client_id obj) (TailnetConfig.client_secret obj)
            (TailnetConfig.tailnet obj)).
  destruct (aparse _ _ _ _) as [[devices|e] w]; [|done].
  by rewrite for_each_print_device.
Qed.

Lemma printed_lines ds :
  Forall (λ d, Device.addresses d ≠ []) ds → Forall2 line_of ds (printed ds).
Proof.
  induction 1 as [|d ds Hd Hds IH]; simpl; [constructor|].
  destruct (Device.addresses d) as [|a rest] eqn:Ha; [done|].
  constructor; [|done]. by exists a, rest.
Qed.

Lemma printed_until_fault before d after :
  Forall (λ d, Device.addresses d ≠ []) before → Device.addresses d = [] →
  printed (before ++ d :: after) = printed before
  ∧ outcome [] (before ++ d :: after)
    = Raise (IndexError "list index out of range").
Proof.
  intros Hbefore Hd. induction Hbefore as [|d' ds Hd' Hds IH]; simpl.
  - by rewrite Hd.
  - destruct (Device.addresses d'); [done|].
    destruct IH as [-> ->]. done.
Qed.

(** X14. Once the devices are fetched, [nodes] prints one line for each
    device, in the order of the listing, that holds the hostname and the
    first address of the device, whatever its tags; at the first device
    without an address it raises the IndexError, having printed the lines of
    the devices before it and no other. *)
Theorem nodes_prints_each_device obj t devices w
  (Hfetch : aparse (TailnetConfig.client_id obj)
              (TailnetConfig.client_secret obj) (TailnetConfig.tailnet obj)
              (outside t)
            = (Ok (DeviceCollection.mk devices), w)) :
  (Forall (λ d, Device.addresses d ≠ []) devices →
   ∃ lines, nodes obj t = (Ok tt, mkTerminal w (stdout t ++ lines))
            ∧ Forall2 line_of devices lines)
  ∧ (∀ before d after,
       devices = (before ++ d :: after)%list →
       Forall (λ d, Device.addresses d ≠ []) before →
       Device.addresses d = [] →
       ∃ lines,
         nodes obj t
         = (Raise (IndexError "list index out of range"),
            mkTerminal w (stdout t ++ lines))
         ∧ Forall2 line_of before lines).
Proof.
  rewrite nodes_run, Hfetch. simpl. split.
  - intros Hall. exists (printed devices). split; [|by apply printed_lines].
    f_equal. apply outcome_Ok_iff. intros d Hd _.
    rewrite Forall_forall in Hall. by apply Hall.
  - intros before d after -> Hbefore Hd.
    destruct (printed_until_fault before d after Hbefore Hd) as [-> ->].
    exists (printed before). split; [done|by apply printed_lines].
Qed.

Lemma nodes_prints_each_device_witness :
  ∃ lines,
    nodes (main "client" "secret" "example.com") (mkTerminal world_cached [])
    = (Ok tt,
       mkTerminal
         (log (HttpGet (devices_url "example.com") (bearer (VStr "tskey-abc")))
            world_cached)
         ([] ++ lines))
    ∧ Forall2 line_of [device_a; device_b] lines.
Proof.
  apply (proj1 (nodes_prints_each_device
                  (main "client" "secret" "example.com")
                  (mkTerminal world_cached []) [device_a; device_b]
                  (log (HttpGet (devices_url "example.com")
                          (bearer (VStr "tskey-abc"))) world_cached) eq_refl)).
  repeat constructor; done.
Defined.




(** * The templated options *)

(** X16. Reading an option by subscript never templates: after
    [opts[key] = value], [opts[key]] is the value as stored, where
    [opts.get(key)] is what the engine makes of it when the value is true,
    the key is one of the four templatable options and the engine sees a
    template. On a key that is not there, the subscript raises KeyError
    where [get] returns None. *)
Theorem subscript_is_raw key value opts :
  let stored :=
    TemplatedOptions.mk (<[key := value]> (TemplatedOptions.original_options opts))
      (TemplatedOptions.templar opts) in
  (TemplatedOptions.__setitem__ key value ;;;
   TemplatedOptions.__getitem__ key) opts = (Ok value, stored)
  ∧ (∀ engine,
       TemplatedOptions.templar opts = Some engine →
       truthy value = true →
       key ∈ TemplatedOptions.TEMPLATABLE_OPTIONS →
       is_template engine value = true →
       (TemplatedOptions.__setitem__ key value ;;;
        TemplatedOptions.get key None) opts
       = (template engine value, stored))
  ∧ (TemplatedOptions.original_options opts !! key = None →
     TemplatedOptions.__getitem__ key opts = (Raise (KeyError key), opts)
     ∧ TemplatedOptions.get key None opts = (Ok ONone, opts)).
Proof.
  simpl. split; [|split].
  - unfold TemplatedOptions.__setitem__, TemplatedOptions.__getitem__,
      bind, modify, get, ret; simpl.
    by rewrite lookup_insert_eq.
  - intros engine Hengine Htrue Hkey Htemplate.
    unfold TemplatedOptions.__setitem__, TemplatedOptions.get,
      TemplatedOptions.dict_get, bind, modify, get, ret, lift_result; simpl.
    rewrite lookup_insert_eq, Hengine, Htrue, Htemplate.
    by rewrite bool_decide_eq_true_2.
  - intros Hmissing.
    unfold TemplatedOptions.__getitem__, TemplatedOptions.get,
      TemplatedOptions.dict_get, bind, get, ret, raise; simpl.
    rewrite Hmissing. split; [done|].
    by destruct (TemplatedOptions.templar opts).
Qed.

Lemma subscript_is_raw_witness :
  (TemplatedOptions.__setitem__ "tailnet" (OStr "{{ net }}") ;;;
   TemplatedOptions.get "tailnet" None)
    (TemplatedOptions.__init__ (Some braces) ∅)
  = (Ok (OStr "resolved"),
     TemplatedOptions.mk {[ "tailnet" := OStr "{{ net }}" ]} (Some braces)).
Proof.
  refine (proj1 (proj2 (subscript_is_raw "tailnet" (OStr "{{ net }}")
                          (TemplatedOptions.__init__ (Some braces) ∅)))
            braces _ _ _ _).
  - reflexivity.
  - reflexivity.
  - unfold TemplatedOptions.TEMPLATABLE_OPTIONS.
    do 2 (apply elem_of_cons; right). apply elem_of_cons. by left.
  - reflexivity.
Defined.




(** X18. An option whose value is false, such as the default empty list of
    tags, or whose name is not one of the four templatable options, comes
    back from [get_option] as the framework gives it, whatever the engine:
    the engine is not asked, so an engine that fails does no harm; with the
    default tags the loop then admits every device. *)
Theorem get_option_untemplated templar value option :
  (truthy value = false → get_option templar value option = Ok value)
  ∧ (option ∉ TemplatedOptions.TEMPLATABLE_OPTIONS →
     get_option templar value option = Ok value)
  ∧ (get_option templar (OList []) "tags" = Ok (OList [])
     ∧ ∀ d, included [] d = true).
Proof.
  assert (∀ v o, (truthy v = false ∨ o ∉ TemplatedOptions.TEMPLATABLE_OPTIONS)
                 → get_option templar v o = Ok v) as Hraw.
  { intros v o Hcase.
    unfold get_option, TemplatedOptions.get, TemplatedOptions.dict_get,
      TemplatedOptions.__init__, bind, get, ret; simpl.
    rewrite lookup_singleton_eq. destruct templar as [engine|]; [|done].
    destruct Hcase as [->|Hnot]; [done|].
    rewrite (bool_decide_eq_false_2 _ Hnot). simpl.
    by rewrite orb_true_r. }
  split; [|split; [|split]].
  - intros Hfalse. apply Hraw. by left.
  - intros Hnot. apply Hraw. by right.
  - apply Hraw. by left.
  - done.
Qed.

Lemma get_option_untemplated_witness :
  get_option (Some (mkTemplar (fun _ => true)
                      (fun _ => Raise (ExternalError "undefined variable"))))
    (OStr "") "client_id"
  = Ok (OStr "").
Proof.
  apply (proj1 (get_option_untemplated
                  (Some (mkTemplar (fun _ => true)
                           (fun _ => Raise (ExternalError "undefined variable"))))
                  (OStr "") "client_id")).
  reflexivity.
Defined.

(** * What a build holds *)

(** X19. Every host of a build comes from a device: its only variable is
    ansible_host, and the value is the first address of a device of that
    hostname that the filter admits. *)
Theorem hosts_come_from_devices devices tagFilter r h vars
  (Hbuild : build devices tagFilter = Ok r)
  (Hhost : hosts r !! h = Some vars) :
  ∃ d a rest, d ∈ DeviceCollection.devices devices
              ∧ included tagFilter d = true
              ∧ Device.hostname d = h
              ∧ Device.addresses d = a :: rest
              ∧ vars = {[ "ansible_host" := a ]}.
Proof.
  apply build_Ok in Hbuild as [Hok ->].
  rewrite hosts_apply_devices in Hhost. simpl in Hhost.
  rewrite lookup_empty in Hhost.
  destruct (last_address _ h) as [a|] eqn:Hlast; [|done].
  simpl in Hhost. injection Hhost as <-.
  apply last_address_Some in Hlast as (d & Hd & Hh & Hhead).
  apply elem_of_processed in Hd as [Hd Hi]; [|done].
  destruct (Device.addresses d) as [|a' rest] eqn:Ha; [done|].
  injection Hhead as ->.
  exists d, a, rest. repeat split; done.
Qed.

Lemma hosts_come_from_devices_witness :
  ∃ d a rest, d ∈ DeviceCollection.devices tailnet_ab
              ∧ included ["web"] d = true
              ∧ Device.hostname d = "a"
              ∧ Device.addresses d = a :: rest
              ∧ ({[ "ansible_host" := "10.0.0.1" ]} : gmap string string)
                = {[ "ansible_host" := a ]}.
Proof.
  apply (hosts_come_from_devices tailnet_ab ["web"] inventory_a "a").
  - by vm_compute.
  - by vm_compute.
Defined.

Lemma size_list_to_set_le (l : list string) :
  (size (list_to_set l : gset string) <= length l)%nat.
Proof.
  induction l as [|x l IH].
  - done.
  - cbn [list_to_set length]. rewrite size_union_alt, size_singleton.
    assert (size (list_to_set l ∖ {[x]} : gset string)
            <= size (list_to_set l : gset string))%nat.
    { apply subseteq_size. set_solver. }
    lia.
Qed.

(** X20. A build has at most one host for each device of the listing and
    at most one group for each tag that the devices carry. *)
Theorem build_size_bounds devices tagFilter r
  (Hbuild : build devices tagFilter = Ok r) :
  (size (hosts r) <= length (DeviceCollection.devices devices))%nat
  ∧ (size (groups r)
     <= length (flat_map (λ d, default [] (Device.tags d))
                  (DeviceCollection.devices devices)))%nat.
Proof.
  split.
  - rewrite <- size_dom.
    rewrite <- (length_fmap Device.hostname).
    etrans; [|apply size_list_to_set_le]. apply subseteq_size.
    intros h. rewrite build_hosts, elem_of_list_to_set, list_elem_of_fmap
      by done.
    intros (d & Hd & Hh & _). by exists d.
  - rewrite <- size_dom.
    rewrite <- (length_fmap group_name).
    etrans; [|apply size_list_to_set_le]. apply subseteq_size.
    intros g [ms Hg]%elem_of_dom.
    destruct (proj1 (build_groups_is_Some _ _ _ g Hbuild))
      as (d & Hd & _ & (tag & Htag & Hname)%tagged_for_spec); [by eexists|].
    rewrite elem_of_list_to_set, list_elem_of_fmap. exists tag.
    split; [done|]. apply list_elem_of_In, in_flat_map. exists d.
    by rewrite <- !list_elem_of_In.
Qed.

Lemma build_size_bounds_witness :
  (size (hosts inventory_a) <= 2)%nat ∧ (size (groups inventory_a) <= 2)%nat.
Proof.
  apply (build_size_bounds tailnet_ab ["web"] inventory_a).
  by vm_compute.
Defined.
